(** * Checkpointed coverage-verification pipeline (filter_covered_commits.py)

    A shallow embedding of the progress tracker, the result accumulator, the
    coverage interpreter, the per-commit verifier and the batch driver, with
    the properties of the design document stated and proved over it.

    Python [str] values are modelled as [string]; a character is a code point
    below 256.  Time stamps and log output are not modelled. *)

From Stdlib Require Import Ascii String.
From stdpp Require Import base list strings sorting.
From Stdlib Require Import ZArith Lia.

Local Open Scope list_scope.

(** ** Python string primitives used by the source *)

Module PyStr.

(** [str.isspace] for one character, restricted to code points < 256. *)
Definition is_space (c : ascii) : bool :=
  let n := nat_of_ascii c in
  ((9 <=? n) && (n <=? 13)) || ((28 <=? n) && (n <=? 32))
  || (n =? 133) || (n =? 160).

(** [ch in s] for a one-character [ch]. *)
Fixpoint contains (ch : ascii) (s : string) : bool :=
  match s with
  | EmptyString => false
  | String c s' => Ascii.eqb c ch || contains ch s'
  end.

(** [s.split(sep)] for a one-character separator: never the empty list. *)
Fixpoint split (sep : ascii) (s : string) : list string :=
  match s with
  | EmptyString => [EmptyString]
  | String c s' =>
      if Ascii.eqb c sep then EmptyString :: split sep s'
      else match split sep s' with
           | [] => [String c EmptyString]
           | h :: t => String c h :: t
           end
  end.

(** [s.replace(a, b)] for one-character [a] and [b]. *)
Fixpoint replace (a b : ascii) (s : string) : string :=
  match s with
  | EmptyString => EmptyString
  | String c s' => String (if Ascii.eqb c a then b else c) (replace a b s')
  end.

Fixpoint lstrip_by (p : ascii -> bool) (s : string) : string :=
  match s with
  | EmptyString => EmptyString
  | String c s' => if p c then lstrip_by p s' else s
  end.

Fixpoint rstrip_by (p : ascii -> bool) (s : string) : string :=
  match s with
  | EmptyString => EmptyString
  | String c s' =>
      match rstrip_by p s' with
      | EmptyString => if p c then EmptyString else String c EmptyString
      | r => String c r
      end
  end.

(** [s.strip()] *)
Definition strip (s : string) : string := rstrip_by is_space (lstrip_by is_space s).

(** [s.rstrip(ch)] for a one-character [ch]. *)
Definition rstrip_char (ch : ascii) (s : string) : string :=
  rstrip_by (fun c => Ascii.eqb c ch) s.

(** [s.rfind(ch)], [None] standing for Python's [-1]. *)
Fixpoint rfind (ch : ascii) (s : string) : option nat :=
  match s with
  | EmptyString => None
  | String c s' =>
      match rfind ch s' with
      | Some i => Some (S i)
      | None => if Ascii.eqb c ch then Some 0 else None
      end
  end.

(** [s[:i]] and [s[i:]] for [0 <= i]. *)
Definition slice_to (i : nat) (s : string) : string := String.substring 0 i s.
Definition slice_from (i : nat) (s : string) : string :=
  String.substring i (String.length s - i) s.

(** [s.startswith(p)] *)
Definition startswith (s p : string) : bool := String.prefix p s.

(** ["".join(parts)] *)
Definition join (parts : list string) : string := String.concat "" parts.

(** Truthiness of a string: [not s] is [true] exactly on the empty string. *)
Definition falsy (s : string) : bool :=
  match s with EmptyString => true | _ => false end.

End PyStr.

(** ** Exceptions *)

(** A computation either returns or raises; [Raise] carries [str(e)]. *)
Inductive result (A : Type) : Type :=
| Ok (a : A)
| Raise (msg : string).
Arguments Ok {A} a.
Arguments Raise {A} msg.

Definition rbind {A B} (r : result A) (k : A -> result B) : result B :=
  match r with
  | Ok a => k a
  | Raise m => Raise m
  end.

Definition IndexError : string := "list index out of range".
Definition ValueError : string := "invalid literal for int() with base 10".

(** ** Method identifiers and descriptors *)

Definition primitive_map : list (string * string) :=
  [("boolean", "Z"); ("byte", "B"); ("char", "C"); ("double", "D");
   ("float", "F"); ("int", "I"); ("long", "J"); ("short", "S"); ("void", "V")].

Fixpoint dict_get (k : string) (d : list (string * string)) : option string :=
  match d with
  | [] => None
  | (k', v) :: d' => if String.eqb k' k then Some v else dict_get k d'
  end.

Definition java_type_to_descriptor (java_type : string) : string :=
  let java_type := PyStr.strip java_type in
  match dict_get java_type primitive_map with
  | Some code => code
  | None => "L" +:+ PyStr.replace "."%char "/"%char java_type +:+ ";"
  end.

Definition params_to_desc_prefix (params_str : string) : string :=
  if PyStr.falsy params_str then "()"
  else
    let params := map PyStr.strip (PyStr.split ","%char params_str) in
    let desc_parts := map java_type_to_descriptor params in
    "(" +:+ PyStr.join desc_parts +:+ ")".

(** [parse_method_id]: [Raise IndexError] when the identifier has no ['('],
    [Ok None] for the triple [(None, None, None)]. *)
Definition parse_method_id (method_id : string)
  : result (option (string * string * string)) :=
  let parts := PyStr.split "("%char method_id in
  match parts with
  | method_part :: second :: _ =>
      let params_str := PyStr.rstrip_char ")"%char second in
      if PyStr.contains "."%char method_part then
        match PyStr.rfind "."%char method_part with
        | Some last_dot =>
            Ok (Some (PyStr.slice_to last_dot method_part,
                      PyStr.slice_from (S last_dot) method_part,
                      params_str))
        | None => Ok None
        end
      else Ok None
  | _ => Raise IndexError
  end.

(** ** Coverage report *)

(** An integer-valued XML attribute as [int(elem.get(name, 0))] sees it. *)
Inductive attr_int : Type :=
| AttrAbsent
| AttrInt (z : Z)
| AttrMalformed.

Definition py_int (a : attr_int) : result Z :=
  match a with
  | AttrAbsent => Ok 0%Z
  | AttrInt z => Ok z
  | AttrMalformed => Raise ValueError
  end.

Record Counter : Type := {
  counter_type : option string;
  counter_covered : attr_int
}.

Record Method : Type := {
  method_name : option string;
  method_desc : option string;
  method_counters : list Counter
}.

Record Class : Type := {
  class_name : option string;
  class_methods : list Method
}.

(** The [class] elements of the document, in document order, as
    [root.findall('.//class')] enumerates them. *)
Definition Report : Type := list Class.

Inductive jacoco_file : Type :=
| NoReport
| UnparseableReport
| ParsedReport (root : Report).

(** [elem.get(name) == s] *)
Definition attr_is (a : option string) (s : string) : bool :=
  match a with
  | Some v => String.eqb v s
  | None => false
  end.

(** [method.get('desc', '')] *)
Definition desc_of (m : Method) : string := default "" (method_desc m).

(** The prefix the interpreter matches descriptors against. *)
Definition matching_prefix (params_str : string) : string :=
  if PyStr.falsy params_str then "" else params_to_desc_prefix params_str.

Definition method_matches (focal_method params_prefix : string) (m : Method) : bool :=
  attr_is (method_name m) focal_method
  && PyStr.startswith (desc_of m) params_prefix.

(** [counter_type == 'INSTRUCTION' and covered > 0] *)
Definition instruction_hit (c : Counter) (covered : Z) : bool :=
  attr_is (counter_type c) "INSTRUCTION" && (0 <? covered)%Z.

(** The loop over [cls.findall('method')]: [Ok true] when it leaves through
    the [break] after recording the candidate. *)
Fixpoint scan_methods (focal_method params_prefix : string) (ms : list Method)
  : result bool :=
  match ms with
  | [] => Ok false
  | m :: ms' =>
      if method_matches focal_method params_prefix m then
        match head (method_counters m) with
        | Some counter =>
            rbind (py_int (counter_covered counter)) (fun covered =>
              if instruction_hit counter covered then Ok true
              else scan_methods focal_method params_prefix ms')
        | None => scan_methods focal_method params_prefix ms'
        end
      else scan_methods focal_method params_prefix ms'
  end.

(** The loop over the classes: the first class of that name ends it. *)
Fixpoint scan_classes (internal_class_name focal_method params_prefix : string)
  (cs : list Class) : result bool :=
  match cs with
  | [] => Ok false
  | cls :: cs' =>
      if attr_is (class_name cls) internal_class_name
      then scan_methods focal_method params_prefix (class_methods cls)
      else scan_classes internal_class_name focal_method params_prefix cs'
  end.

(** One iteration of the loop over [focal_methods]. *)
Definition check_candidate (root : Report) (focal_method_id : string)
  : result bool :=
  rbind (parse_method_id focal_method_id) (fun parsed =>
    match parsed with
    | None => Ok false
    | Some (focal_class, focal_method, params_str) =>
        if PyStr.falsy focal_class || PyStr.falsy focal_method then Ok false
        else
          scan_classes (PyStr.replace "."%char "/"%char focal_class) focal_method
            (matching_prefix params_str) root
    end).

Fixpoint coverage_loop (root : Report) (focal_methods covered_methods : list string)
  : result (list string) :=
  match focal_methods with
  | [] => Ok covered_methods
  | focal_method_id :: rest =>
      rbind (check_candidate root focal_method_id) (fun hit =>
        coverage_loop root rest
          (if hit then covered_methods ++ [focal_method_id] else covered_methods))
  end.

Definition check_jacoco_coverage (file : jacoco_file) (focal_methods : list string)
  : list string :=
  match file with
  | NoReport => []
  | UnparseableReport => []
  | ParsedReport root =>
      match coverage_loop root focal_methods [] with
      | Ok covered_methods => covered_methods
      | Raise _ => []
      end
  end.

(** The first class entry of a given internal name. *)
Definition first_class (internal_class_name : string) (root : Report) : option Class :=
  List.find (fun cls => attr_is (class_name cls) internal_class_name) root.

(** Inputs on which the interpreter raises nothing: every identifier has an
    opening parenthesis and every [covered] attribute is absent or numeric. *)
Definition has_paren (method_id : string) : bool := PyStr.contains "("%char method_id.

Definition numeric_counter (c : Counter) : bool :=
  match counter_covered c with AttrMalformed => false | _ => true end.

Definition numeric_report (root : Report) : bool :=
  forallb (fun cls =>
    forallb (fun m => forallb numeric_counter (method_counters m)) (class_methods cls))
    root.

(** A report laid out as the JaCoCo writer lays it out: class and method
    names are not empty, every [covered] attribute is absent or numeric, and
    the INSTRUCTION counter of a method, when there is one, is its first
    counter child. *)
Definition wellformed_method (m : Method) : bool :=
  negb (attr_is (method_name m) "")
  && forallb numeric_counter (method_counters m)
  && forallb (fun c => negb (attr_is (counter_type c) "INSTRUCTION"))
       (tail (method_counters m)).

Definition jacoco_shaped (root : Report) : bool :=
  forallb (fun cls =>
    negb (attr_is (class_name cls) "")
    && forallb wellformed_method (class_methods cls))
    root.

(** Coverage of a candidate as the interpreter decides it: the first class
    entry of the candidate's internal name has a method entry of the
    candidate's name whose descriptor starts with the matching prefix and
    whose first counter child is an INSTRUCTION counter with covered > 0. *)
Definition code_covered (root : Report) (method_id : string) : Prop :=
  exists focal_class focal_method params_str cls m k z,
    parse_method_id method_id = Ok (Some (focal_class, focal_method, params_str))
    /\ focal_class <> "" /\ focal_method <> ""
    /\ first_class (PyStr.replace "."%char "/"%char focal_class) root = Some cls
    /\ m ∈ class_methods cls
    /\ method_name m = Some focal_method
    /\ PyStr.startswith (desc_of m) (matching_prefix params_str) = true
    /\ head (method_counters m) = Some k
    /\ counter_type k = Some "INSTRUCTION"
    /\ counter_covered k = AttrInt z /\ (0 < z)%Z.

(** Coverage of a candidate in the words of the design document: the first
    class entry of the candidate's internal name has a method entry of the
    candidate's name whose descriptor starts with the matching prefix and
    whose INSTRUCTION counter reports a covered count greater than 0. *)
Definition spec_covered (root : Report) (method_id : string) : Prop :=
  exists focal_class focal_method params_str cls m k z,
    parse_method_id method_id = Ok (Some (focal_class, focal_method, params_str))
    /\ first_class (PyStr.replace "."%char "/"%char focal_class) root = Some cls
    /\ m ∈ class_methods cls
    /\ method_name m = Some focal_method
    /\ PyStr.startswith (desc_of m) (matching_prefix params_str) = true
    /\ k ∈ method_counters m
    /\ counter_type k = Some "INSTRUCTION"
    /\ counter_covered k = AttrInt z /\ (0 < z)%Z.

(** Sample reports. *)
Definition instruction (covered : Z) : Counter :=
  {| counter_type := Some "INSTRUCTION"; counter_covered := AttrInt covered |}.

Definition foo_bar_report (counters : list Counter) : Report :=
  [ {| class_name := Some "com/example/Foo";
       class_methods := [ {| method_name := Some "bar";
                             method_desc := Some "(I)V";
                             method_counters := counters |} ] |} ].

(** The test the method loop applies to one entry, for a numeric report. *)
Definition method_hit (focal_method params_prefix : string) (m : Method) : bool :=
  method_matches focal_method params_prefix m
  && match head (method_counters m) with
     | Some k =>
         match counter_covered k with
         | AttrInt z => instruction_hit k z
         | _ => false
         end
     | None => false
     end.

Definition line_counter (covered : Z) : Counter :=
  {| counter_type := Some "LINE"; counter_covered := AttrInt covered |}.

(** ** Result accumulator (DynamicSaver) *)

Record Pair : Type := {
  test_method_id : string;
  focal_method_id : string
}.

(** One record of the results file; [reason] and [error_message] are [None]
    when the dictionary has no such key. *)
Record VerificationResult : Type := {
  commit : string;
  new_pairs : list Pair;
  old_pairs : list Pair;
  status : string;
  reason : option string;
  error_message : option string
}.

(** The results file of one project, as [append_result] finds it. *)
Inductive results_file : Type :=
| ResultsMissing
| ResultsCorrupt
| ResultsStored (records : list VerificationResult).

(** What the read step leaves in [existing_results]: the stored list, or the
    empty list when the file cannot be read. *)
Definition stored (file : results_file) : list VerificationResult :=
  match file with
  | ResultsStored records => records
  | _ => []
  end.

(** The update loop of [append_result]: replace the first record of the same
    commit in place, or append. *)
Definition upsert (existing_results : list VerificationResult)
  (result : VerificationResult) : list VerificationResult :=
  match list_find (fun existing_result => commit existing_result = commit result)
          existing_results with
  | Some (i, _) => <[i := result]> existing_results
  | None => existing_results ++ [result]
  end.

(** How a write [with open(file, 'w') as f: json.dump(data, f)] ends: the
    data are written; or [open] raises and the file is as it was; or [open]
    succeeds, which empties (or creates) the file, and [json.dump] raises,
    which leaves a file that cannot be read back. *)
Inductive write_outcome : Type :=
| Written
| Refused
| Truncated.

(** [append_result]; [create_ok] and [write_ok] tell how the write that
    creates a missing file and the final write end. *)
Definition append_result (create_ok write_ok : write_outcome)
  (output_file : results_file) (result : VerificationResult)
  : bool * results_file :=
  let created :=
    match output_file with
    | ResultsMissing =>
        match create_ok with
        | Written => inl (ResultsStored [])
        | Refused => inr ResultsMissing
        | Truncated => inr ResultsCorrupt
        end
    | _ => inl output_file
    end in
  match created with
  | inr left_behind => (false, left_behind)
  | inl output_file =>
      let existing_results := upsert (stored output_file) result in
      match write_ok with
      | Written => (true, ResultsStored existing_results)
      | Refused => (false, output_file)
      | Truncated => (false, ResultsCorrupt)
      end
  end.

(** ** Progress tracker *)

(** The progress dictionary of one project.  [run_status] is its "status"
    entry; the time stamps and the completion statistics are left out. *)
Record ProgressRecord : Type := {
  project_name : string;
  run_status : string;
  processed_commits : list string;
  current_index : nat;
  total_commits : nat;
  successful_commits : nat
}.

Inductive progress_file : Type :=
| ProgressMissing
| ProgressCorrupt
| ProgressStored (data : ProgressRecord).

Definition fresh_progress (name status : string) (total : nat) : ProgressRecord :=
  {| project_name := name;
     run_status := status;
     processed_commits := [];
     current_index := 0;
     total_commits := total;
     successful_commits := 0 |}.

Definition load_progress (file : progress_file) (name : string) : ProgressRecord :=
  match file with
  | ProgressStored data => data
  | _ => fresh_progress name "not_started" 0
  end.

(** [save_progress]; [write_ok] tells how the write ends. *)
Definition save_progress (write_ok : write_outcome) (file : progress_file)
  (progress_data : ProgressRecord) : bool * progress_file :=
  match write_ok with
  | Written => (true, ProgressStored progress_data)
  | Refused => (false, file)
  | Truncated => (false, ProgressCorrupt)
  end.

Definition is_commit_processed (file : progress_file) (name commit_sha : string) : bool :=
  bool_decide (commit_sha ∈ processed_commits (load_progress file name)).

(** ** The environment of a run *)

Inductive cmd_outcome : Type :=
| CmdOk
| CmdFail
| CmdRaise (msg : string).

(** What a run does to the outside, in order.  [EvProcessCommit] marks a call
    of [process_single_commit] by the driver. *)
Inductive event : Type :=
| EvCommand (cmd : list string)
| EvConfigurePom
| EvRmtree
| EvCommitInfo (commit_hash : string)
| EvReadReport
| EvAppendResult (result : VerificationResult)
| EvSaveProgress (progress_data : ProgressRecord)
| EvProcessCommit (commit_idx : nat) (commit_id : string).

(** The outside world answers as a function of what has been done so far:
    how a command ends ([run_command] returns [True] or [False], or raises
    from one of its unguarded calls), what [jacoco.xml] holds, and how a
    write of a file ends. *)
Record World : Type := {
  command_outcome : list event -> list string -> cmd_outcome;
  jacoco_xml : list event -> jacoco_file;
  can_create : list event -> write_outcome;
  can_write : list event -> write_outcome
}.

Record State : Type := {
  trace : list event;
  results : results_file;
  progress_store : progress_file
}.

Definition log (ev : event) (s : State) : State :=
  {| trace := trace s ++ [ev]; results := results s;
     progress_store := progress_store s |}.

(** The state after further events that touch neither file. *)
Definition extend (s : State) (evs : list event) : State :=
  {| trace := trace s ++ evs; results := results s;
     progress_store := progress_store s |}.

(** Events of the working directory: commands, build-file rewrites, report
    reads.  The other events are the two stores and the driver's calls. *)
Definition is_external (ev : event) : bool :=
  match ev with
  | EvCommand _ | EvConfigurePom | EvRmtree | EvCommitInfo _ | EvReadReport => true
  | _ => false
  end.

(** Stateful computations that may raise; the state survives a raise. *)
Definition M (A : Type) : Type := State -> result A * State.

Definition ret {A} (a : A) : M A := fun s => (Ok a, s).

Definition bind {A B} (m : M A) (k : A -> M B) : M B :=
  fun s => match m s with
           | (Ok a, s') => k a s'
           | (Raise msg, s') => (Raise msg, s')
           end.

Definition lift {A} (r : result A) : M A := fun s => (r, s).

Notation "x <- m ;; k" := (bind m (fun x => k))
  (at level 100, m at next level, right associativity).
Notation "m ;;; k" := (bind m (fun _ => k))
  (at level 100, right associativity).

Record CommitInfo : Type := {
  sha1 : string;
  focal_methods_new : list string;
  focal_methods_old : list string;
  test_methods_new : list string;
  test_methods_old : list string
}.

Definition make_pair (test focal : string) : Pair :=
  {| test_method_id := test; focal_method_id := focal |}.

Definition failed_result (commit_id why : string) : VerificationResult :=
  {| commit := commit_id; new_pairs := []; old_pairs := [];
     status := "failed"; reason := Some why; error_message := None |}.

Definition success_result (commit_id : string) (new old : list Pair)
  : VerificationResult :=
  {| commit := commit_id; new_pairs := new; old_pairs := old;
     status := "success"; reason := None; error_message := None |}.

Definition error_result (commit_id msg : string) : VerificationResult :=
  {| commit := commit_id; new_pairs := []; old_pairs := [];
     status := "error"; reason := None; error_message := Some msg |}.

(** The admission test of [process_single_commit]. *)
Definition rejected (c : CommitInfo) : bool :=
  (40 <=? length (test_methods_new c)) || (40 <=? length (focal_methods_new c))
  || (40 <=? length (test_methods_old c)) || (40 <=? length (focal_methods_old c))
  || (length (test_methods_old c) =? 0) || (length (test_methods_new c) =? 0)
  || (length (focal_methods_new c) =? 0) || (length (focal_methods_old c) =? 0).

Definition checkout_cmd (rev : string) : list string :=
  ["git"; "reset"; "--hard"; rev].

Definition mvn_clean : list string := ["mvn"; "clean"].

Definition git_status_cmd : list string := ["git"; "status"; "--short"].

Definition test_cmd (test_class test_method : string) : list string :=
  ["mvn"; "test"; "-Dtest=" +:+ test_class +:+ "#" +:+ test_method;
   "-DskipTests=false"].

Definition prev_of (commit_id : string) : string := commit_id +:+ "~1".

Section Pipeline.
Variable w : World.

Definition run_command (cmd : list string) : M bool :=
  fun s =>
    let s' := log (EvCommand cmd) s in
    match command_outcome w (trace s) cmd with
    | CmdOk => (Ok true, s')
    | CmdFail => (Ok false, s')
    | CmdRaise msg => (Raise msg, s')
    end.

(** The three rewrites of [pom.xml]; each catches its own exceptions. *)
Definition configure_pom : M unit := fun s => (Ok tt, log EvConfigurePom s).

(** [shutil.rmtree] of the report directory, with both handlers. *)
Definition rmtree : M unit := fun s => (Ok tt, log EvRmtree s).

Definition get_commit_info (commit_hash : string) : M unit :=
  fun s => (Ok tt, log (EvCommitInfo commit_hash) s).

Definition read_coverage (focal_methods : list string) : M (list string) :=
  fun s => (Ok (check_jacoco_coverage (jacoco_xml w (trace s)) focal_methods),
            log EvReadReport s).

(** [dynamic_saver.append_result] on the project's file. *)
Definition save_result (result : VerificationResult) (s : State) : bool * State :=
  let '(ok, file) :=
    append_result (can_create w (trace s)) (can_write w (trace s)) (results s) result in
  (ok, {| trace := trace s ++ [EvAppendResult result]; results := file;
          progress_store := progress_store s |}).

Definition persist (result : VerificationResult) : M bool :=
  fun s => let '(ok, s') := save_result result s in (Ok ok, s').

(** The loop over the test methods of one revision.  [clean] is [true] for
    the new revision, whose loop starts each round with [mvn clean] and
    removes the report directory before the test; the loop of the old
    revision does neither.  The counter is kept next to the pair list as in
    the source. *)
Fixpoint test_loop (clean : bool) (focal_methods tests : list string)
  (pairs : list Pair) (coverage_count : nat) : M (list Pair * nat) :=
  match tests with
  | [] => ret (pairs, coverage_count)
  | test_method_id :: rest =>
      (if clean then run_command mvn_clean else ret true) ;;;
      parsed <- lift (parse_method_id test_method_id) ;;
      match parsed with
      | Some (test_class, test_method, _) =>
          if PyStr.falsy test_class || PyStr.falsy test_method
          then test_loop clean focal_methods rest pairs coverage_count
          else
            (if clean then rmtree else ret tt) ;;;
            ran <- run_command (test_cmd test_class test_method) ;;
            if ran then
              covered_methods <- read_coverage focal_methods ;;
              test_loop clean focal_methods rest
                (pairs ++ map (make_pair test_method_id) covered_methods)
                (coverage_count + length covered_methods)
            else test_loop clean focal_methods rest pairs coverage_count
      | None => test_loop clean focal_methods rest pairs coverage_count
      end
  end.

(** The new-revision phase after the checkout. *)
Definition new_phase (c : CommitInfo) : M (list Pair * nat) :=
  configure_pom ;;;
  test_loop true (focal_methods_new c) (test_methods_new c) [] 0.

(** The old-revision phase after the checkout of the parent. *)
Definition old_phase (c : CommitInfo) : M (list Pair * nat) :=
  run_command mvn_clean ;;;
  configure_pom ;;;
  test_loop false (focal_methods_old c) (test_methods_old c) [] 0.

(** The body of the [try] block. *)
Definition verify (c : CommitInfo) : M bool :=
  let commit_id := sha1 c in
  switched <- run_command (checkout_cmd commit_id) ;;
  if negb switched then ret false
  else
    new <- new_phase c ;;
    let '(new_pairs, new_coverage_count) := new in
    if new_coverage_count <? 2 then
      persist (failed_result commit_id "new_coverage_less_than_2") ;;; ret false
    else
      get_commit_info (prev_of commit_id) ;;;
      switched <- run_command (checkout_cmd (prev_of commit_id)) ;;
      if negb switched then
        persist (failed_result commit_id "failed_to_switch_to_prev_commit") ;;;
        ret false
      else
        old <- old_phase c ;;
        let '(old_pairs, old_coverage_count) := old in
        if old_coverage_count <? 2 then
          persist (failed_result commit_id "old_coverage_less_than_2") ;;; ret false
        else
          persist (success_result commit_id new_pairs old_pairs) ;;; ret true.

(** [process_single_commit].  The steps before the [try] block (the look-up
    in the progress file, whose reader catches its own failures, the reads
    of the four method lists of the commit descriptor and the admission
    filter) raise nothing, and neither does the handler, whose
    [append_result] catches its own failures; so the exceptions of a call
    are those of the [try] block, and the [match] below is its
    [except Exception] handler. *)
Definition process_single_commit (commit_info : CommitInfo) (name : string)
  (s : State) : bool * State :=
  let commit_id := sha1 commit_info in
  if is_commit_processed (progress_store s) name commit_id then (true, s)
  else if rejected commit_info then (false, s)
  else
    match verify commit_info s with
    | (Ok success, s') => (success, s')
    | (Raise msg, s') => (false, (save_result (error_result commit_id msg) s').2)
    end.

(** ** Batch driver, one project *)

Definition checkpoint (progress : ProgressRecord) (s : State) : State :=
  {| trace := trace s ++ [EvSaveProgress progress];
     results := results s;
     progress_store :=
       (save_progress (can_write w (trace s)) (progress_store s) progress).2 |}.

Definition set_index (idx : nat) (p : ProgressRecord) : ProgressRecord :=
  {| project_name := project_name p; run_status := run_status p;
     processed_commits := processed_commits p; current_index := idx;
     total_commits := total_commits p;
     successful_commits := successful_commits p |}.

Definition record_outcome (success : bool) (commit_id : string)
  (p : ProgressRecord) : ProgressRecord :=
  {| project_name := project_name p; run_status := run_status p;
     processed_commits := processed_commits p ++ [commit_id];
     current_index := current_index p;
     total_commits := total_commits p;
     successful_commits :=
       if success then successful_commits p + 1 else successful_commits p |}.

Definition set_status (st : string) (p : ProgressRecord) : ProgressRecord :=
  {| project_name := project_name p; run_status := st;
     processed_commits := processed_commits p;
     current_index := current_index p;
     total_commits := total_commits p;
     successful_commits := successful_commits p |}.

(** The loop [for commit_idx in range(start_index, total_commits)], run on
    the commits from [start_index] on. *)
Fixpoint commit_loop (name : string) (commit_idx : nat) (todo : list CommitInfo)
  (progress : ProgressRecord) (s : State) : ProgressRecord * State :=
  match todo with
  | [] => (progress, s)
  | commit_info :: rest =>
      let commit_id := sha1 commit_info in
      let progress := set_index commit_idx progress in
      let s := checkpoint progress s in
      let '(success, s) :=
        process_single_commit commit_info name (log (EvProcessCommit commit_idx commit_id) s) in
      let progress := record_outcome success commit_id progress in
      let s := checkpoint progress s in
      commit_loop name (S commit_idx) rest progress s
  end.

(** The body of the loop over the projects, for a project whose commit file
    was read. *)
Definition run_project (name : string) (commits_data : list CommitInfo) : M unit :=
  fun s =>
    let total := length commits_data in
    let progress := load_progress (progress_store s) name in
    let progress :=
      if String.eqb (run_status progress) "not_started"
      then fresh_progress name "running" total
      else progress in
    match run_command git_status_cmd s with
    | (Raise msg, s) => (Raise msg, s)
    | (Ok _, s) =>
        let start_index := current_index progress in
        let '(progress, s) :=
          commit_loop name start_index (drop start_index commits_data) progress s in
        (Ok tt, checkpoint (set_status "completed" progress) s)
    end.

End Pipeline.

(** ** Views of a trace *)

(** The driver's own steps: a checkpoint with its cursor, or a call of the
    verifier with the commit's index. *)
Inductive driver_step : Type :=
| Saved (cursor : nat)
| Processed (commit_idx : nat).

Definition driver_step_of (ev : event) : option driver_step :=
  match ev with
  | EvSaveProgress p => Some (Saved (current_index p))
  | EvProcessCommit i _ => Some (Processed i)
  | _ => None
  end.

Definition driver_view (tr : list event) : list driver_step := omap driver_step_of tr.

Definition cursor_of (st : driver_step) : option nat :=
  match st with Saved k => Some k | Processed _ => None end.

Definition processed_of (st : driver_step) : option nat :=
  match st with Processed i => Some i | Saved _ => None end.

Definition cursors (steps : list driver_step) : list nat := omap cursor_of steps.

Definition processed_indices (steps : list driver_step) : list nat :=
  omap processed_of steps.

(** The progress records handed to [save_progress]. *)
Definition saved_of (ev : event) : option ProgressRecord :=
  match ev with EvSaveProgress p => Some p | _ => None end.

Definition saved_records (tr : list event) : list ProgressRecord := omap saved_of tr.

(** The records handed to the accumulator. *)
Definition appended_of (ev : event) : option VerificationResult :=
  match ev with EvAppendResult r => Some r | _ => None end.

Definition appended (tr : list event) : list VerificationResult := omap appended_of tr.

(** The driver's steps for the commits [start .. start + n - 1]. *)
Definition rounds (start n : nat) : list driver_step :=
  flat_map (fun i => [Saved i; Processed i; Saved i]) (seq start n).

(** The cursor of the closing checkpoint of a project started at [k]. *)
Definition final_cursor (k total : nat) : nat :=
  if decide (k < total) then total - 1 else k.

(** ** Sample inputs *)

(** A report with two covered methods, and a world that always produces it. *)
Definition two_method_report : Report :=
  [ {| class_name := Some "com/example/Foo";
       class_methods :=
         [ {| method_name := Some "bar"; method_desc := Some "(I)V";
              method_counters := [instruction 5] |};
           {| method_name := Some "baz"; method_desc := Some "()V";
              method_counters := [instruction 3] |} ] |} ].

Definition covering_world : World :=
  {| command_outcome := fun _ _ => CmdOk;
     jacoco_xml := fun _ => ParsedReport two_method_report;
     can_create := fun _ => Written;
     can_write := fun _ => Written |}.

Definition paired_commit : CommitInfo :=
  {| sha1 := "abc123";
     focal_methods_new := ["com.example.Foo.bar(int)"; "com.example.Foo.baz()"];
     focal_methods_old := ["com.example.Foo.bar(int)"; "com.example.Foo.baz()"];
     test_methods_new := ["com.example.FooTest.testBar()"];
     test_methods_old := ["com.example.FooTest.testBar()"] |}.

Definition both_pairs : list Pair :=
  [ make_pair "com.example.FooTest.testBar()" "com.example.Foo.bar(int)";
    make_pair "com.example.FooTest.testBar()" "com.example.Foo.baz()" ].


(** A world in which every command succeeds, no report is ever produced and
    every write succeeds. *)
Definition calm_world : World :=
  {| command_outcome := fun _ _ => CmdOk;
     jacoco_xml := fun _ => NoReport;
     can_create := fun _ => Written;
     can_write := fun _ => Written |}.

(** A world in which every command raises. *)
Definition broken_world : World :=
  {| command_outcome := fun _ _ => CmdRaise "boom";
     jacoco_xml := fun _ => NoReport;
     can_create := fun _ => Written;
     can_write := fun _ => Written |}.

Definition initial_state : State :=
  {| trace := []; results := ResultsMissing; progress_store := ProgressMissing |}.

Definition small_commit : CommitInfo :=
  {| sha1 := "abc123";
     focal_methods_new := ["com.example.Foo.bar(int)"];
     focal_methods_old := ["com.example.Foo.bar(int)"];
     test_methods_new := ["com.example.FooTest.testBar()"];
     test_methods_old := ["com.example.FooTest.testBar()"] |}.

(** The same commit with 41 test methods for the new revision. *)
Definition wide_commit : CommitInfo :=
  {| sha1 := "abc123";
     focal_methods_new := ["com.example.Foo.bar(int)"];
     focal_methods_old := ["com.example.Foo.bar(int)"];
     test_methods_new := replicate 41 "com.example.FooTest.testBar()";
     test_methods_old := ["com.example.FooTest.testBar()"] |}.

(** A state whose progress file already lists the sample commit. *)
Definition resumed_state : State :=
  {| trace := []; results := ResultsMissing;
     progress_store :=
       ProgressStored {| project_name := "proj"; run_status := "completed";
                         processed_commits := ["abc123"]; current_index := 0;
                         total_commits := 1; successful_commits := 0 |} |}.

(** A computation that only adds events satisfying [P] to the trace and
    leaves both stores alone. *)
Definition frames {A} (P : event -> bool) (m : M A) : Prop :=
  forall s, exists r evs, m s = (r, extend s evs)
                          /\ Forall (fun ev => P ev = true) evs.

(** The events of a test loop: [mvn] commands, build-file rewrites, removal
    of the report directory and report reads. *)
Definition is_build (ev : event) : bool :=
  match ev with
  | EvCommand (tool :: _) => String.eqb tool "mvn"
  | EvConfigurePom | EvRmtree | EvReadReport => true
  | _ => false
  end.

Definition second_commit : CommitInfo :=
  {| sha1 := "def456";
     focal_methods_new := ["com.example.Foo.bar(int)"; "com.example.Foo.baz()"];
     focal_methods_old := ["com.example.Foo.bar(int)"; "com.example.Foo.baz()"];
     test_methods_new := ["com.example.FooTest.testBar()"];
     test_methods_old := ["com.example.FooTest.testBar()"] |}.

(** A run interrupted while its cursor stood at the second commit. *)
Definition midway_state : State :=
  {| trace := []; results := ResultsMissing;
     progress_store :=
       ProgressStored {| project_name := "proj"; run_status := "running";
                         processed_commits := ["abc123"]; current_index := 1;
                         total_commits := 2; successful_commits := 0 |} |}.

(** ** Auxiliary notions for the further properties *)

(** The part of an identifier before its first opening parenthesis,
    [method_id.split('(')[0]]. *)
Definition method_part_of (method_id : string) : string :=
  default "" (head (PyStr.split "("%char method_id)).

(** Every character of the string satisfies [p]. *)
Fixpoint all_chars (p : ascii -> bool) (s : string) : bool :=
  match s with
  | EmptyString => true
  | String c s' => p c && all_chars p s'
  end.

(** The type codes of a parameter string, without the parentheses. *)
Definition descriptor_body (params_str : string) : string :=
  PyStr.join (map java_type_to_descriptor
                (map PyStr.strip (PyStr.split ","%char params_str))).

(** The verdict of the interpreter on one candidate, a raise counting as
    "not covered". *)
Definition candidate_hit (root : Report) (method_id : string) : bool :=
  match check_candidate root method_id with
  | Ok true => true
  | _ => false
  end.

(** A world in which every command returns failure. *)
Definition failing_world : World :=
  {| command_outcome := fun _ _ => CmdFail;
     jacoco_xml := fun _ => NoReport;
     can_create := fun _ => Written;
     can_write := fun _ => Written |}.

(** A commit whose only test identifier for the new revision has no
    parenthesis. *)
Definition bare_test_commit : CommitInfo :=
  {| sha1 := "abc123";
     focal_methods_new := ["com.example.Foo.bar(int)"];
     focal_methods_old := ["com.example.Foo.bar(int)"];
     test_methods_new := ["com.example.FooTest.testBar"];
     test_methods_old := ["com.example.FooTest.testBar()"] |}.

(** The progress record [main] works on before its loop: the loaded one, or
    a fresh running one when the loaded status is "not_started". *)
Definition starting_progress (file : progress_file) (name : string) (total : nat)
  : ProgressRecord :=
  let progress := load_progress file name in
  if String.eqb (run_status progress) "not_started"
  then fresh_progress name "running" total
  else progress.

(** ** Further string primitives *)

(** [str.lower] on one character, for code points below 256: the letters A-Z
    and the accented capitals 0xC0-0xDE other than the multiplication sign. *)
Definition lower_char (c : ascii) : ascii :=
  let n := nat_of_ascii c in
  if ((65 <=? n) && (n <=? 90))
     || ((192 <=? n) && (n <=? 222) && negb (n =? 215))
  then ascii_of_nat (n + 32) else c.

Fixpoint lower (s : string) : string :=
  match s with
  | EmptyString => EmptyString
  | String c s' => String (lower_char c) (lower s')
  end.

(** [keyword in s] for strings. *)
Fixpoint py_in (keyword s : string) : bool :=
  String.prefix keyword s
  || match s with
     | EmptyString => false
     | String _ s' => py_in keyword s'
     end.

(** ["\n".join(lines)] and the like. *)
Definition join_with (sep : string) (parts : list string) : string :=
  String.concat sep parts.

Definition tab : ascii := ascii_of_nat 9.
Definition newline : ascii := ascii_of_nat 10.

(** ** Reverting test changes (revert_branch.py) *)

Definition default_test_keywords : list string :=
  ["test"; "spec"; "test_"; "_test"; ".test."; ".spec."].

Definition is_test_file (test_keywords : list string) (file_path : string) : bool :=
  let file_path_str := lower file_path in
  existsb (fun keyword => py_in keyword file_path_str) test_keywords.

(** What [run_git_command] returns from the standard output of a command
    that succeeded. *)
Definition git_output (stdout : string) : string := PyStr.strip stdout.

(** The loop of [get_diff_files] over the lines of the diff. *)
Fixpoint diff_lines (lines : list string) : list (string * string) :=
  match lines with
  | [] => []
  | line :: rest =>
      if PyStr.falsy (PyStr.strip line) then diff_lines rest
      else
        match PyStr.split tab line with
        | status :: filepath :: _ => (status, filepath) :: diff_lines rest
        | _ => diff_lines rest
        end
  end.

(** [get_diff_files], from the standard output of the [git diff]. *)
Definition get_diff_files (stdout : string) : list (string * string) :=
  let diff_output := git_output stdout in
  if PyStr.falsy diff_output then []
  else diff_lines (PyStr.split newline diff_output).

Definition get_test_files_from_diff (test_keywords : list string) (stdout : string)
  : list (string * string) :=
  List.filter (fun entry => is_test_file test_keywords entry.2) (get_diff_files stdout).

(** What [revert_test_changes] does to the repository. *)
Inductive repo_event : Type :=
| RepoGit (args : list string)
| RepoRemove (path : string).

(** The repository answers as a function of what has been done so far:
    whether a git command succeeds (a failure makes [run_git_command] raise),
    whether a path exists and whether it can be removed. *)
Record Repo : Type := {
  git_succeeds : list repo_event -> list string -> bool;
  path_exists : list repo_event -> string -> bool;
  remove_succeeds : list repo_event -> string -> bool
}.

Definition restore_cmd (filepath : string) : list string :=
  ["checkout"; "HEAD^"; "--"; filepath].

Section Revert.
Variable repo : Repo.

(** [run_git_command] with [check=True]: [false] stands for the raised
    CalledProcessError. *)
Definition run_git (args : list string) (done : list repo_event)
  : bool * list repo_event :=
  (git_succeeds repo done args, done ++ [RepoGit args]).

(** [os.remove] guarded by [exists()]: [false] stands for a raised error. *)
Definition remove_if_exists (path : string) (done : list repo_event)
  : bool * list repo_event :=
  if path_exists repo done path
  then (remove_succeeds repo done path, done ++ [RepoRemove path])
  else (true, done).

(** The body of the [try] for one entry; [false] when it raises. *)
Definition revert_entry (status filepath : string) (done : list repo_event)
  : bool * list repo_event :=
  if String.eqb status "A" then remove_if_exists filepath done
  else if String.eqb status "M" || String.eqb status "D"
  then run_git (restore_cmd filepath) done
  else if py_in "R" status then
    match PyStr.split tab status with
    | _ :: old_file :: new_file :: _ =>
        let '(ok, done) := run_git (restore_cmd old_file) done in
        if ok then remove_if_exists new_file done else (false, done)
    | _ => (true, done)
    end
  else (true, done).

(** The second loop of [revert_test_changes]: the first entry that raises
    ends it with [False]. *)
Fixpoint revert_loop (test_files : list (string * string)) (done : list repo_event)
  : bool * list repo_event :=
  match test_files with
  | [] => (true, done)
  | (status, filepath) :: rest =>
      let '(ok, done) := revert_entry status filepath done in
      if ok then revert_loop rest done else (false, done)
  end.

Definition revert_test_changes (test_keywords : list string) (stdout : string)
  (done : list repo_event) : bool * list repo_event :=
  revert_loop (get_test_files_from_diff test_keywords stdout) done.

End Revert.

(** The output of [git diff --name-status] for a list of entries. *)
Definition diff_line (entry : string * string) : string :=
  entry.1 +:+ String tab entry.2.

Definition diff_text (entries : list (string * string)) : string :=
  join_with (String newline "") (map diff_line entries).

(** An entry as git writes it: the status has no white space and is not
    empty; the path is not empty, has no tab or line feed and no white space
    at its end. *)
Definition plain_entry (entry : string * string) : bool :=
  negb (PyStr.falsy entry.1)
  && all_chars (fun c => negb (PyStr.is_space c)) entry.1
  && negb (PyStr.falsy entry.2)
  && negb (PyStr.contains tab entry.2)
  && negb (PyStr.contains newline entry.2)
  && String.eqb (PyStr.rstrip_by PyStr.is_space entry.2) entry.2.

(** A string that [strip] leaves alone at its end, and at its start. *)
Definition fixed_end (s : string) : Prop :=
  PyStr.rstrip_by PyStr.is_space s = s /\ s <> "".

Definition fixed_start (s : string) : Prop :=
  exists c r, s = String c r /\ PyStr.is_space c = false.

(** ** Selecting the commits to verify (filter_valid_commits.py) *)

Record ChangedElement : Type := {
  element_type : string;
  element_name : string;
  version : string
}.

(** One commit of the input file; [None] when the key is absent.  A
    dictionary of changes is the list of its items in order. *)
Record CommitData : Type := {
  commit_id : string;
  changed_methods : option (list (string * list ChangedElement));
  changed_constructors : option (list (string * list ChangedElement))
}.

(** A Python set of strings, as a list without repetition; [set.add] keeps
    the elements already there.  The order in which [list(set)] enumerates
    the set is not specified by Python; the order of insertion is used. *)
Definition set_add (x : string) (s : list string) : list string :=
  if bool_decide (x ∈ s) then s else s ++ [x].

Record MethodSets : Type := {
  focal_new : list string;
  focal_old : list string;
  test_new : list string;
  test_old : list string
}.

Definition empty_sets : MethodSets :=
  {| focal_new := []; focal_old := []; test_new := []; test_old := [] |}.

(** The test applied to an element: its path or its name contains "test",
    in any case. *)
Definition looks_like_test (file_path name : string) : bool :=
  py_in "test" (lower file_path) || py_in "test" (lower name).

(** The four-way [add] of the two loops. *)
Definition add_element (file_path : string) (el : ChangedElement) (sets : MethodSets)
  : MethodSets :=
  let name := element_name el in
  if looks_like_test file_path name then
    if String.eqb (version el) "NEW"
    then {| focal_new := focal_new sets; focal_old := focal_old sets;
            test_new := set_add name (test_new sets); test_old := test_old sets |}
    else {| focal_new := focal_new sets; focal_old := focal_old sets;
            test_new := test_new sets; test_old := set_add name (test_old sets) |}
  else
    if String.eqb (version el) "NEW"
    then {| focal_new := set_add name (focal_new sets); focal_old := focal_old sets;
            test_new := test_new sets; test_old := test_old sets |}
    else {| focal_new := focal_new sets; focal_old := set_add name (focal_old sets);
            test_new := test_new sets; test_old := test_old sets |}.

(** The loop over a dictionary of changes; [accepts] is the test on the
    element type. *)
Definition add_changes (accepts : string -> bool)
  (changes : list (string * list ChangedElement)) (sets : MethodSets) : MethodSets :=
  foldl (fun sets item =>
           foldl (fun sets el =>
                    if accepts (element_type el) then add_element item.1 el sets
                    else sets)
             sets item.2)
    sets changes.

Definition is_method_or_constructor (ty : string) : bool :=
  String.eqb ty "METHOD" || String.eqb ty "CONSTRUCTOR".

Definition is_constructor (ty : string) : bool := String.eqb ty "CONSTRUCTOR".

Definition collect_sets (commit_data : CommitData) : MethodSets :=
  let sets := empty_sets in
  let sets :=
    match changed_methods commit_data with
    | Some changes => add_changes is_method_or_constructor changes sets
    | None => sets
    end in
  match changed_constructors commit_data with
  | Some changes => add_changes is_constructor changes sets
  | None => sets
  end.

Definition total_focal_count (sets : MethodSets) : nat :=
  length (focal_new sets) + length (focal_old sets).

Definition total_test_count (sets : MethodSets) : nat :=
  length (test_new sets) + length (test_old sets).

(** The selection test of [filter_commits]. *)
Definition is_valid (sets : MethodSets) : bool :=
  (0 <? total_focal_count sets) && (0 <? total_test_count sets)
  && ((2 <=? total_focal_count sets) || (2 <=? total_test_count sets)).

Definition commit_obj (commit_data : CommitData) (sets : MethodSets) : CommitInfo :=
  {| sha1 := commit_id commit_data;
     focal_methods_new := focal_new sets;
     focal_methods_old := focal_old sets;
     test_methods_new := test_new sets;
     test_methods_old := test_old sets |}.

(** [filter_commits], from the commits read to the commits written. *)
Fixpoint filter_commits (commits : list CommitData) : list CommitInfo :=
  match commits with
  | [] => []
  | commit_data :: rest =>
      let sets := collect_sets commit_data in
      if is_valid sets then commit_obj commit_data sets :: filter_commits rest
      else filter_commits rest
  end.

(** What the sets of one commit always satisfy. *)
Definition tidy_sets (sets : MethodSets) : Prop :=
  NoDup (focal_new sets) /\ NoDup (focal_old sets)
  /\ NoDup (test_new sets) /\ NoDup (test_old sets)
  /\ Forall (fun name => py_in "test" (lower name) = false) (focal_new sets)
  /\ Forall (fun name => py_in "test" (lower name) = false) (focal_old sets).

(** A commit of the input file with two changed methods and one changed
    test. *)
Definition sample_commit_data : CommitData :=
  {| commit_id := "abc123";
     changed_methods :=
       Some [ ("src/main/java/com/example/Foo.java",
               [ {| element_type := "METHOD";
                    element_name := "com.example.Foo.bar(int)";
                    version := "NEW" |};
                 {| element_type := "METHOD";
                    element_name := "com.example.Foo.bar(int)";
                    version := "OLD" |} ]);
              ("src/test/java/com/example/FooTest.java",
               [ {| element_type := "METHOD";
                    element_name := "com.example.FooTest.testBar()";
                    version := "NEW" |} ]) ];
     changed_constructors := None |}.

(* ================================================================== *)
(** * Properties *)
(* ================================================================== *)

(** ** Strings *)

Lemma falsy_spec s : PyStr.falsy s = true <-> s = "".
Proof. destruct s; simpl; split; congruence. Qed.

Lemma falsy_false s : PyStr.falsy s = false <-> s <> "".
Proof. destruct s; simpl; split; congruence. Qed.

Lemma split_not_nil sep s : PyStr.split sep s <> [].
Proof.
  destruct s as [|c s]; simpl; [discriminate|].
  destruct (Ascii.eqb c sep); [discriminate|].
  destruct (PyStr.split sep s); discriminate.
Qed.

Lemma split_contains sep s :
  PyStr.contains sep s = true ->
  exists a b rest, PyStr.split sep s = a :: b :: rest.
Proof.
  induction s as [|c s IH]; simpl; [discriminate|].
  destruct (Ascii.eqb c sep) eqn:E; simpl.
  - intros _. destruct (PyStr.split sep s) as [|h t] eqn:Hs.
    + exfalso. by eapply split_not_nil.
    + eauto.
  - intros H. destruct (IH H) as (a & b & rest & ->). eauto.
Qed.

Lemma split_no_sep sep s :
  PyStr.contains sep s = false -> PyStr.split sep s = [s].
Proof.
  induction s as [|c s IH]; simpl; [done|].
  destruct (Ascii.eqb c sep); simpl; [discriminate|].
  intros H. by rewrite (IH H).
Qed.

(** ** Method identifiers *)

Lemma parse_method_id_paren method_id :
  has_paren method_id = true -> exists p, parse_method_id method_id = Ok p.
Proof.
  intros H. unfold parse_method_id.
  destruct (split_contains _ _ H) as (a & b & rest & ->).
  destruct (PyStr.contains "." a); [|eauto].
  destruct (PyStr.rfind "." a); eauto.
Qed.

Lemma parse_method_id_no_paren method_id :
  has_paren method_id = false -> parse_method_id method_id = Raise IndexError.
Proof.
  intros H. unfold parse_method_id. by rewrite (split_no_sep _ _ H).
Qed.

(** ** Coverage interpreter *)

Lemma attr_is_spec a s : attr_is a s = true <-> a = Some s.
Proof.
  destruct a as [v|]; simpl; [|split; congruence].
  rewrite String.eqb_eq. split; congruence.
Qed.

Lemma method_hit_spec focal_method params_prefix m :
  method_hit focal_method params_prefix m = true <->
  method_name m = Some focal_method
  /\ PyStr.startswith (desc_of m) params_prefix = true
  /\ exists k z, head (method_counters m) = Some k
       /\ counter_type k = Some "INSTRUCTION"
       /\ counter_covered k = AttrInt z /\ (0 < z)%Z.
Proof.
  unfold method_hit, method_matches, instruction_hit.
  rewrite !andb_true_iff, attr_is_spec. split.
  - intros [[Hn Hd] Hk]. split_and!; [done..|].
    destruct (head (method_counters m)) as [k|]; [|discriminate].
    destruct (counter_covered k) as [|z|] eqn:Hz; try discriminate.
    apply andb_true_iff in Hk as [Ht Hpos].
    apply attr_is_spec in Ht. apply Z.ltb_lt in Hpos. eauto 10.
  - intros (Hn & Hd & k & z & -> & Ht & -> & Hpos). split_and!; [done..|].
    apply andb_true_iff. split; [by apply attr_is_spec | by apply Z.ltb_lt].
Qed.

Lemma scan_methods_numeric focal_method params_prefix ms :
  forallb (fun m => forallb numeric_counter (method_counters m)) ms = true ->
  scan_methods focal_method params_prefix ms
  = Ok (existsb (method_hit focal_method params_prefix) ms).
Proof.
  induction ms as [|m ms IH]; simpl; [done|].
  intros [Hm Hms]%andb_true_iff. specialize (IH Hms).
  unfold method_hit at 1.
  destruct (method_matches focal_method params_prefix m); simpl; [|done].
  destruct (method_counters m) as [|k ks]; simpl in *; [done|].
  apply andb_true_iff in Hm as [Hk _]. unfold numeric_counter in Hk.
  destruct (counter_covered k) as [|z|]; simpl; try done.
  - by unfold instruction_hit; rewrite andb_false_r.
  - by destruct (instruction_hit k z).
Qed.

Lemma scan_classes_numeric internal focal_method params_prefix root :
  numeric_report root = true ->
  scan_classes internal focal_method params_prefix root
  = Ok match first_class internal root with
       | Some cls => existsb (method_hit focal_method params_prefix) (class_methods cls)
       | None => false
       end.
Proof.
  unfold first_class.
  induction root as [|cls root IH]; simpl; [done|].
  intros [Hc Hr]%andb_true_iff.
  destruct (attr_is (class_name cls) internal); [|by apply IH].
  by apply scan_methods_numeric.
Qed.

(** On a numeric report a candidate with a parenthesis never raises. *)
Lemma check_candidate_total root method_id :
  numeric_report root = true -> has_paren method_id = true ->
  exists b, check_candidate root method_id = Ok b.
Proof.
  intros Hr Hp. unfold check_candidate.
  destruct (parse_method_id_paren _ Hp) as [p ->]. simpl.
  destruct p as [[[c m] ps]|]; [|eauto].
  destruct (PyStr.falsy c || PyStr.falsy m); [eauto|].
  rewrite scan_classes_numeric by done. eauto.
Qed.

Lemma check_candidate_covered root method_id :
  numeric_report root = true ->
  check_candidate root method_id = Ok true <-> code_covered root method_id.
Proof.
  intros Hr. unfold check_candidate, code_covered. split.
  - destruct (parse_method_id method_id) as [[[[c m] ps]|]|] eqn:Hp; simpl;
      try discriminate.
    destruct (PyStr.falsy c) eqn:Hc; [discriminate|].
    destruct (PyStr.falsy m) eqn:Hm; [discriminate|]. simpl.
    rewrite scan_classes_numeric by done.
    destruct (first_class _ root) as [cls|] eqn:Hcls; [|discriminate].
    intros [= (mt & Hin & Hhit)%existsb_exists].
    apply method_hit_spec in Hhit as (Hn & Hd & k & z & Hk & Ht & Hz & Hpos).
    exists c, m, ps, cls, mt, k, z.
    split_and!; try done; try by apply falsy_false.
    by apply list_elem_of_In.
  - intros (c & m & ps & cls & mt & k & z & -> & Hc & Hm & Hcls & Hin & Hn & Hd
            & Hk & Ht & Hz & Hpos). simpl.
    apply falsy_false in Hc, Hm. rewrite Hc, Hm. simpl.
    rewrite scan_classes_numeric, Hcls by done. f_equal.
    apply existsb_exists. exists mt. split; [by apply list_elem_of_In|].
    apply method_hit_spec. eauto 10.
Qed.

Lemma coverage_loop_spec root focal_methods acc :
  numeric_report root = true ->
  forallb has_paren focal_methods = true ->
  exists covered,
    coverage_loop root focal_methods acc = Ok (acc ++ covered)
    /\ covered `sublist_of` focal_methods
    /\ forall method_id, method_id ∈ covered <->
         method_id ∈ focal_methods /\ code_covered root method_id.
Proof.
  intros Hr. revert acc.
  induction focal_methods as [|x rest IH]; simpl; intros acc Hp.
  - exists []. rewrite app_nil_r. split_and!; [done..|].
    intros ?. rewrite !elem_of_nil. tauto.
  - apply andb_true_iff in Hp as [Hx Hrest].
    destruct (check_candidate_total root x Hr Hx) as [b Hb]. rewrite Hb. simpl.
    destruct b.
    + destruct (IH (acc ++ [x]) Hrest) as (cov & -> & Hsub & Hin).
      exists (x :: cov). rewrite <- app_assoc. split_and!; [done| by constructor |].
      intros y. rewrite !elem_of_cons, Hin. split.
      * intros [->|[? ?]]; [|tauto]. split; [by left|].
        by apply check_candidate_covered.
      * intros [[->|?] ?]; tauto.
    + destruct (IH acc Hrest) as (cov & -> & Hsub & Hin).
      exists cov. split_and!; [done| by constructor |].
      intros y. rewrite elem_of_cons, Hin. split; [tauto|].
      intros [[->|?] Hc]; [|tauto].
      apply check_candidate_covered in Hc; [congruence|done].
Qed.

Lemma coverage_loop_raises root focal_methods acc :
  forallb has_paren focal_methods = false ->
  exists msg, coverage_loop root focal_methods acc = Raise msg.
Proof.
  revert acc. induction focal_methods as [|x rest IH]; simpl; intros acc H;
    [discriminate|].
  destruct (check_candidate root x) as [b|msg] eqn:Hx; simpl; [|eauto].
  destruct (has_paren x) eqn:Hp; simpl in H.
  - by apply IH.
  - unfold check_candidate in Hx.
    rewrite (parse_method_id_no_paren _ Hp) in Hx. discriminate.
Qed.

(** One identifier without an opening parenthesis empties the whole answer,
    whatever the report holds. *)
Lemma unparseable_identifier_empties_result file focal_methods :
  forallb has_paren focal_methods = false ->
  check_jacoco_coverage file focal_methods = [].
Proof.
  intros H. destruct file as [| |root]; simpl; [done..|].
  by destruct (coverage_loop_raises root focal_methods [] H) as [msg ->].
Qed.

(** An identifier with a parenthesis but no class part is skipped. *)
Lemma classless_identifier_skipped root method_part params :
  PyStr.contains "(" method_part = false ->
  PyStr.contains "." method_part = false ->
  check_candidate root (method_part +:+ "(" +:+ params) = Ok false.
Proof.
  intros Hp Hd. unfold check_candidate, parse_method_id.
  assert (Hs : exists second rest,
             PyStr.split "(" (method_part +:+ "(" +:+ params)
             = method_part :: second :: rest).
  { clear Hd. induction method_part as [|c s IH]; simpl in *.
    - change ("" +:+ params) with params.
      destruct (PyStr.split "(" params) as [|h t] eqn:E.
      + exfalso. by eapply split_not_nil.
      + by exists h, t.
    - apply orb_false_iff in Hp as [Hc Hs]. rewrite Hc.
      destruct (IH Hs) as (second & rest & ->). by exists second, rest. }
  destruct Hs as (second & rest & ->). by rewrite Hd.
Qed.

(** On a report laid out as JaCoCo lays it out, the interpreter's test of a
    candidate and the design document's say the same. *)
Lemma jacoco_shaped_numeric root :
  jacoco_shaped root = true -> numeric_report root = true.
Proof.
  unfold jacoco_shaped, numeric_report. intros H.
  apply forallb_forall. intros cls Hcls.
  apply (proj1 (forallb_forall _ _) H) in Hcls.
  apply andb_true_iff in Hcls as [_ Hms].
  apply forallb_forall. intros m Hm.
  apply (proj1 (forallb_forall _ _) Hms) in Hm. unfold wellformed_method in Hm.
  by apply andb_true_iff in Hm as [[_ Hm]%andb_true_iff _].
Qed.

Lemma jacoco_shaped_covered root method_id :
  jacoco_shaped root = true ->
  spec_covered root method_id <-> code_covered root method_id.
Proof.
  intros Hshape. split.
  - intros (fc & fm & ps & cls & m & k & z & Hparse & Hfirst & Hm & Hname & Hdesc
            & Hk & Hty & Hcov & Hz).
    destruct (find_some _ _ Hfirst) as [Hcls Hcn].
    apply (proj1 (forallb_forall _ _) Hshape) in Hcls.
    apply andb_true_iff in Hcls as [Hcne Hms].
    pose proof Hm as Hm'. apply list_elem_of_In in Hm'.
    apply (proj1 (forallb_forall _ _) Hms) in Hm'. unfold wellformed_method in Hm'.
    apply andb_true_iff in Hm' as [[Hmne _]%andb_true_iff Htail].
    exists fc, fm, ps, cls, m, k, z. split_and!; try done.
    + intros ->. simpl in Hcn. by rewrite Hcn in Hcne.
    + intros ->. rewrite Hname in Hmne. discriminate.
    + destruct (method_counters m) as [|k0 rest]; [by apply elem_of_nil in Hk|].
      apply elem_of_cons in Hk as [->|Hk]; [done|]. simpl in Htail.
      apply list_elem_of_In in Hk.
      apply (proj1 (forallb_forall _ _) Htail) in Hk.
      rewrite Hty in Hk. discriminate.
  - intros (fc & fm & ps & cls & m & k & z & Hparse & _ & _ & Hfirst & Hm & Hname
            & Hdesc & Hk & Hty & Hcov & Hz).
    exists fc, fm, ps, cls, m, k, z. split_and!; try done.
    destruct (method_counters m) as [|k0 rest]; [discriminate|].
    injection Hk as ->. apply list_elem_of_here.
Qed.

(** C4: a candidate that meets every condition of the matching policy is not
    reported when the query also holds an identifier without an opening
    parenthesis (the defect of C9): the entry of bar(int) has an INSTRUCTION
    counter with 5 covered instructions, asked alone the candidate is
    reported, and asked together with the identifier baz it is not. *)
Theorem C4_covered_candidate_not_reported :
  "com.example.Foo.bar(int)" ∈ ["com.example.Foo.bar(int)"; "baz"]
  /\ spec_covered (foo_bar_report [instruction 5]) "com.example.Foo.bar(int)"
  /\ check_jacoco_coverage (ParsedReport (foo_bar_report [instruction 5]))
       ["com.example.Foo.bar(int)"] = ["com.example.Foo.bar(int)"]
  /\ check_jacoco_coverage (ParsedReport (foo_bar_report [instruction 5]))
       ["com.example.Foo.bar(int)"; "baz"] = []
  /\ "com.example.Foo.bar(int)"
       ∉ check_jacoco_coverage (ParsedReport (foo_bar_report [instruction 5]))
           ["com.example.Foo.bar(int)"; "baz"].
Proof.
  split_and!; try reflexivity.
  - apply list_elem_of_here.
  - exists "com.example.Foo", "bar", "int".
    exists {| class_name := Some "com/example/Foo";
              class_methods := [ {| method_name := Some "bar";
                                    method_desc := Some "(I)V";
                                    method_counters := [instruction 5] |} ] |}.
    exists {| method_name := Some "bar"; method_desc := Some "(I)V";
              method_counters := [instruction 5] |}.
    exists (instruction 5), 5%Z.
    split_and!; try reflexivity; apply list_elem_of_here.
  - apply not_elem_of_nil.
Qed.

(** The two cases of the design document's coverage-matching test. *)
Example coverage_matching_covered :
  check_jacoco_coverage (ParsedReport (foo_bar_report [instruction 5]))
    ["com.example.Foo.bar(int)"] = ["com.example.Foo.bar(int)"].
Proof. reflexivity. Qed.

Example coverage_matching_not_covered :
  check_jacoco_coverage (ParsedReport (foo_bar_report [instruction 0]))
    ["com.example.Foo.bar(int)"] = [].
Proof. reflexivity. Qed.

(** C9: an identifier without an opening parenthesis is not skipped: it makes
    [parse_method_id] raise, the interpreter's handler for report failures
    catches it, and the candidate found covered before it is lost. *)
Theorem C9_unparseable_identifier_loses_results :
  parse_method_id "baz" = Raise IndexError
  /\ check_jacoco_coverage (ParsedReport (foo_bar_report [instruction 5]))
       ["com.example.Foo.bar(int)"] = ["com.example.Foo.bar(int)"]
  /\ check_jacoco_coverage (ParsedReport (foo_bar_report [instruction 5]))
       ["com.example.Foo.bar(int)"; "baz"] = [].
Proof. split_and!; reflexivity. Qed.

(** ** Descriptor conversion *)

Lemma primitive_map_miss t :
  t ∉ ["boolean"; "byte"; "char"; "double"; "float"; "int"; "long"; "short"; "void"] ->
  dict_get t primitive_map = None.
Proof.
  intros Hnot. unfold primitive_map, dict_get.
  repeat match goal with
         | |- context [String.eqb ?k t] =>
             destruct (String.eqb_spec k t) as [<-|_];
             [exfalso; apply Hnot; repeat constructor|]
         end.
  reflexivity.
Qed.

(** C5 (as amended): for a non-empty parameter string the prefix used for
    descriptor matching is "(" followed by the type codes of the
    comma-separated, stripped parameter types and ")"; the type code of
    boolean is Z, of byte B, of char C, of double D, of float F, of int I, of
    long J, of short S and of void V, and the code of any other type is "L",
    its dot-to-slash name and ";"; "int,java.lang.String" gives
    "(ILjava/lang/String;)" and " boolean , long,a.b.C" gives "(ZJLa/b/C;)";
    [params_to_desc_prefix] maps the empty string to "()", but the
    interpreter matches an empty parameter string with the empty prefix. *)
Theorem C5_descriptor_prefix params_str :
  params_str <> "" ->
  matching_prefix params_str
  = "(" +:+ PyStr.join (map java_type_to_descriptor
                          (map PyStr.strip (PyStr.split "," params_str))) +:+ ")"
  /\ (forall t,
        (PyStr.strip t = "boolean" -> java_type_to_descriptor t = "Z")
        /\ (PyStr.strip t = "byte" -> java_type_to_descriptor t = "B")
        /\ (PyStr.strip t = "char" -> java_type_to_descriptor t = "C")
        /\ (PyStr.strip t = "double" -> java_type_to_descriptor t = "D")
        /\ (PyStr.strip t = "float" -> java_type_to_descriptor t = "F")
        /\ (PyStr.strip t = "int" -> java_type_to_descriptor t = "I")
        /\ (PyStr.strip t = "long" -> java_type_to_descriptor t = "J")
        /\ (PyStr.strip t = "short" -> java_type_to_descriptor t = "S")
        /\ (PyStr.strip t = "void" -> java_type_to_descriptor t = "V")
        /\ (PyStr.strip t ∉ ["boolean"; "byte"; "char"; "double"; "float"; "int";
                              "long"; "short"; "void"] ->
            java_type_to_descriptor t
            = "L" +:+ PyStr.replace "." "/" (PyStr.strip t) +:+ ";"))
  /\ matching_prefix "int,java.lang.String" = "(ILjava/lang/String;)"
  /\ matching_prefix " boolean , long,a.b.C" = "(ZJLa/b/C;)"
  /\ matching_prefix "byte,char,double,float,short,void" = "(BCDFSV)"
  /\ params_to_desc_prefix "" = "()"
  /\ matching_prefix "" = "".
Proof.
  intros Hne. split_and!; try reflexivity.
  - unfold matching_prefix, params_to_desc_prefix.
    apply falsy_false in Hne. by rewrite Hne.
  - intros t. unfold java_type_to_descriptor.
    split_and!; try (by intros ->).
    intros Hnot. by rewrite (primitive_map_miss _ Hnot).
Qed.

Lemma C5_descriptor_prefix_witness :
  "int,java.lang.String" <> ""
  /\ matching_prefix "int,java.lang.String"
     = "(" +:+ PyStr.join (map java_type_to_descriptor
                             (map PyStr.strip (PyStr.split "," "int,java.lang.String")))
           +:+ ")".
Proof.
  split; [discriminate|].
  apply (C5_descriptor_prefix "int,java.lang.String"). discriminate.
Defined.

(** C5 (as stated) fails: the identifier "com.example.Foo.bar()" has an empty
    parameter list, the prefix used to match it is the empty string and not
    "()", and so the entry with descriptor "(I)V" is reported for it. *)
Lemma C5_counterexample :
  parse_method_id "com.example.Foo.bar()" = Ok (Some ("com.example.Foo", "bar", ""))
  /\ matching_prefix "" <> "()"
  /\ PyStr.startswith "(I)V" "()" = false
  /\ check_jacoco_coverage (ParsedReport (foo_bar_report [instruction 5]))
       ["com.example.Foo.bar()"] = ["com.example.Foo.bar()"].
Proof. split_and!; try reflexivity. discriminate. Qed.

(** ** Result accumulator *)

Section Upsert.
Implicit Types (l : list VerificationResult) (r : VerificationResult).

Lemma upsert_length_present l r i x :
  list_find (fun e => commit e = commit r) l = Some (i, x) ->
  upsert l r = <[i := r]> l /\ i < length l.
Proof.
  intros H. unfold upsert. rewrite H. split; [done|].
  apply list_find_Some in H as (Hi & _). by eapply lookup_lt_Some.
Qed.

Lemma upsert_absent l r :
  Forall (fun e => commit e <> commit r) l -> upsert l r = l ++ [r].
Proof.
  intros H. unfold upsert.
  by rewrite (proj2 (list_find_None (fun e => commit e = commit r) l) H).
Qed.

(** After an upsert the record sits at the first position of its commit. *)
Lemma upsert_find l r :
  exists i, list_find (fun e => commit e = commit r) (upsert l r) = Some (i, r)
            /\ length (upsert l r) = length (<[i := r]> l) `max` S i.
Proof.
  unfold upsert.
  destruct (list_find _ l) as [[i x]|] eqn:H.
  - exists i. apply list_find_Some in H as (Hi & Hx & Hfirst).
    pose proof (lookup_lt_Some _ _ _ Hi) as Hlt.
    split; [|rewrite !length_insert; lia].
    apply list_find_Some. split_and!; [by apply list_lookup_insert_eq | done |].
    intros j y Hj Hji. rewrite list_lookup_insert_ne in Hj by lia. eauto.
  - exists (length l). apply list_find_None in H.
    split; [|rewrite length_app, length_insert; simpl; lia].
    apply list_find_Some. split_and!.
    + by rewrite lookup_app_r, Nat.sub_diag.
    + done.
    + intros j y Hj Hlt. rewrite lookup_app_l in Hj by done.
      exact (Forall_lookup_1 _ _ _ _ H Hj).
Qed.

Lemma upsert_NoDup l r :
  NoDup (commit <$> l) -> NoDup (commit <$> upsert l r).
Proof.
  intros Hnd. unfold upsert.
  destruct (list_find _ l) as [[i x]|] eqn:H.
  - apply list_find_Some in H as (Hi & Hx & _). simpl in Hx.
    rewrite list_fmap_insert, <- Hx, list_insert_id; [done|].
    by rewrite list_lookup_fmap, Hi.
  - apply list_find_None in H. rewrite fmap_app. apply NoDup_app.
    split_and!; [done | | apply NoDup_singleton].
    intros c (e & -> & He)%list_elem_of_fmap Hr%list_elem_of_singleton.
    by apply (proj1 (Forall_forall _ l) H e).
Qed.

End Upsert.

Lemma append_result_NoDup create_ok write_ok file r :
  NoDup (commit <$> stored file) ->
  NoDup (commit <$> stored (append_result create_ok write_ok file r).2).
Proof.
  intros H. unfold append_result.
  destruct file as [| |l]; simpl in *.
  - destruct create_ok; simpl; [|constructor..].
    destruct write_ok; simpl; [apply NoDup_singleton | constructor..].
  - destruct write_ok; simpl; [apply NoDup_singleton | constructor..].
  - destruct write_ok; simpl; [by apply upsert_NoDup | done | constructor].
Qed.

(** C1: with writes that succeed, appending [r1] and then [r2] of the same
    commit stores [r1] at some position [i], the second call stores [r2] at
    that same position and changes nothing else, so the length is unchanged;
    a result whose commit is not yet there is appended at the end; and no
    call ever introduces a second record of one commit. *)
Theorem C1_idempotent_upsert (file : results_file) (r1 r2 : VerificationResult) :
  commit r1 = commit r2 ->
  exists records i,
    append_result Written Written file r1 = (true, ResultsStored records)
    /\ records !! i = Some r1
    /\ append_result Written Written (ResultsStored records) r2
       = (true, ResultsStored (<[i := r2]> records))
    /\ length (<[i := r2]> records) = length records
    /\ (forall l r, Forall (fun e => commit e <> commit r) l ->
          append_result Written Written (ResultsStored l) r = (true, ResultsStored (l ++ [r])))
    /\ (forall create_ok write_ok f r, NoDup (commit <$> stored f) ->
          NoDup (commit <$> stored (append_result create_ok write_ok f r).2)).
Proof.
  intros Hc.
  assert (Hstep : forall l, exists i,
            upsert l r1 !! i = Some r1 /\ upsert (upsert l r1) r2 = <[i := r2]> (upsert l r1)).
  { intros l. destruct (upsert_find l r1) as (i & Hfind & _). exists i.
    split; [by apply list_find_Some in Hfind as (? & _)|].
    unfold upsert at 1. by rewrite <- Hc, Hfind. }
  assert (Hgoal : forall l, exists records i,
            (true, ResultsStored (upsert l r1)) = (true, ResultsStored records)
            /\ records !! i = Some r1
            /\ append_result Written Written (ResultsStored records) r2
               = (true, ResultsStored (<[i := r2]> records))).
  { intros l. destruct (Hstep l) as (i & Hi & Hup).
    exists (upsert l r1), i. split_and!; [done..|].
    unfold append_result. simpl. by rewrite Hup. }
  destruct (Hgoal (stored file)) as (records & i & Heq & Hi & Happ).
  exists records, i. split_and!.
  - rewrite <- Heq. by destruct file.
  - done.
  - done.
  - apply length_insert.
  - intros l r H. unfold append_result. simpl. by rewrite upsert_absent.
  - apply append_result_NoDup.
Qed.

Lemma C1_idempotent_upsert_witness :
  commit (failed_result "abc123" "old_coverage_less_than_2")
  = commit (success_result "abc123" [] [])
  /\ exists records i,
       append_result Written Written ResultsMissing
         (failed_result "abc123" "old_coverage_less_than_2")
       = (true, ResultsStored records)
       /\ records !! i = Some (failed_result "abc123" "old_coverage_less_than_2")
       /\ append_result Written Written (ResultsStored records) (success_result "abc123" [] [])
          = (true, ResultsStored (<[i := success_result "abc123" [] []]> records)).
Proof.
  split; [reflexivity|].
  destruct (C1_idempotent_upsert ResultsMissing
              (failed_result "abc123" "old_coverage_less_than_2")
              (success_result "abc123" [] []) eq_refl)
    as (records & i & H1 & H2 & H3 & _).
  exists records, i. split; [exact H1|]. split; [exact H2 | exact H3].
Defined.

(** With writes that succeed the record handed over is in the file. *)
Lemma append_result_stores file r :
  exists records, append_result Written Written file r = (true, ResultsStored records)
                  /\ r ∈ records.
Proof.
  exists (upsert (stored file) r). split; [by destruct file|].
  destruct (upsert_find (stored file) r) as (i & (Hi & _)%list_find_Some & _).
  by eapply list_elem_of_lookup_2.
Qed.

(** ** Frame properties of the pipeline *)

Lemma extend_nil s : extend s [] = s.
Proof. destruct s. unfold extend. simpl. by rewrite app_nil_r. Qed.

Lemma extend_extend s a b : extend (extend s a) b = extend s (a ++ b).
Proof. unfold extend. simpl. by rewrite app_assoc. Qed.

Lemma log_extend ev s : log ev s = extend s [ev].
Proof. done. Qed.

Section Frame.
Variable w : World.
Variable P : event -> bool.
Hypothesis P_mvn : forall args, P (EvCommand ("mvn" :: args)) = true.
Hypothesis P_pom : P EvConfigurePom = true.
Hypothesis P_rmtree : P EvRmtree = true.
Hypothesis P_read : P EvReadReport = true.

Lemma frames_ret {A} (a : A) : frames P (ret a).
Proof. intros s. exists (Ok a), []. by rewrite extend_nil. Qed.

Lemma frames_lift {A} (r : result A) : frames P (lift r).
Proof. intros s. exists r, []. by rewrite extend_nil. Qed.

Lemma frames_bind {A B} (m : M A) (k : A -> M B) :
  frames P m -> (forall a, frames P (k a)) -> frames P (bind m k).
Proof.
  intros Hm Hk s. unfold bind.
  destruct (Hm s) as (r & evs & -> & Hevs).
  destruct r as [a|msg]; [|by exists (Raise msg), evs].
  destruct (Hk a (extend s evs)) as (r' & evs' & -> & Hevs').
  exists r', (evs ++ evs'). rewrite extend_extend. split; [done|].
  by apply Forall_app.
Qed.

Lemma frames_run_command cmd :
  P (EvCommand cmd) = true -> frames P (run_command w cmd).
Proof.
  intros HP s. unfold run_command. rewrite log_extend.
  destruct (command_outcome w (trace s) cmd);
    eexists _, [EvCommand cmd]; (split; [reflexivity|]);
    by repeat constructor.
Qed.

Lemma frames_configure_pom : frames P configure_pom.
Proof. intros s. exists (Ok tt), [EvConfigurePom]. by repeat constructor. Qed.

Lemma frames_rmtree : frames P rmtree.
Proof. intros s. exists (Ok tt), [EvRmtree]. by repeat constructor. Qed.

Lemma frames_get_commit_info h :
  P (EvCommitInfo h) = true -> frames P (get_commit_info h).
Proof. intros HP s. exists (Ok tt), [EvCommitInfo h]. by repeat constructor. Qed.

Lemma frames_read_coverage focal_methods : frames P (read_coverage w focal_methods).
Proof.
  intros s. eexists _, [EvReadReport]. split; [reflexivity|].
  by repeat constructor.
Qed.

Lemma frames_test_loop clean focal_methods tests pairs n :
  frames P (test_loop w clean focal_methods tests pairs n).
Proof.
  revert pairs n. induction tests as [|t rest IH]; intros pairs n; simpl.
  - apply frames_ret.
  - apply frames_bind.
    { destruct clean; [apply frames_run_command, P_mvn | apply frames_ret]. }
    intros _. apply frames_bind; [apply frames_lift|].
    intros [[[cls mth] ps]|]; [|apply IH].
    destruct (PyStr.falsy cls || PyStr.falsy mth); [apply IH|].
    apply frames_bind.
    { destruct clean; [apply frames_rmtree | apply frames_ret]. }
    intros _. apply frames_bind; [apply frames_run_command, P_mvn|].
    intros [|]; [|apply IH].
    apply frames_bind; [apply frames_read_coverage|]. intros cov. apply IH.
Qed.

Lemma frames_new_phase c : frames P (new_phase w c).
Proof.
  apply frames_bind; [apply frames_configure_pom|]. intros _.
  apply frames_test_loop.
Qed.

Lemma frames_old_phase c : frames P (old_phase w c).
Proof.
  apply frames_bind; [apply frames_run_command, P_mvn|]. intros _.
  apply frames_bind; [apply frames_configure_pom|]. intros _.
  apply frames_test_loop.
Qed.

End Frame.

Lemma is_build_external ev : is_build ev = true -> is_external ev = true.
Proof. by destruct ev. Qed.

Lemma new_phase_builds w c : frames is_build (new_phase w c).
Proof. by apply frames_new_phase. Qed.

Lemma old_phase_builds w c : frames is_build (old_phase w c).
Proof. by apply frames_old_phase. Qed.

(** ** Running the monad *)

Lemma bind_ok {A B} (m : M A) (k : A -> M B) s a s' :
  m s = (Ok a, s') -> bind m k s = k a s'.
Proof. unfold bind. by intros ->. Qed.

Lemma bind_raise {A B} (m : M A) (k : A -> M B) s msg s' :
  m s = (Raise msg, s') -> bind m k s = (Raise msg, s').
Proof. unfold bind. by intros ->. Qed.

Lemma bind_inv_ok {A B} (m : M A) (k : A -> M B) s b s' :
  bind m k s = (Ok b, s') ->
  exists a s1, m s = (Ok a, s1) /\ k a s1 = (Ok b, s').
Proof.
  unfold bind. destruct (m s) as [[a|msg] s1]; [eauto | discriminate].
Qed.

(** The answer of the interpreter is always drawn from the candidates. *)
Lemma coverage_loop_sublist root focal_methods acc covered :
  coverage_loop root focal_methods acc = Ok covered ->
  exists found, covered = acc ++ found /\ found `sublist_of` focal_methods.
Proof.
  revert acc. induction focal_methods as [|x rest IH]; simpl; intros acc H.
  - injection H as <-. exists []. by rewrite app_nil_r.
  - destruct (check_candidate root x) as [hit|]; simpl in H; [|discriminate].
    destruct (IH _ H) as (found & -> & Hsub). destruct hit.
    + exists (x :: found). rewrite <- app_assoc. split; [done | by constructor].
    + exists found. split; [done | by constructor].
Qed.

Lemma check_jacoco_coverage_sublist file focal_methods :
  check_jacoco_coverage file focal_methods `sublist_of` focal_methods.
Proof.
  destruct file as [| |root]; simpl; try apply sublist_nil_l.
  destruct (coverage_loop root focal_methods []) as [covered|] eqn:H;
    [|apply sublist_nil_l].
  by destruct (coverage_loop_sublist _ _ _ _ H) as (found & -> & Hsub).
Qed.

Section Verifier.
Variable w : World.

Lemma run_command_ok cmd s :
  command_outcome w (trace s) cmd = CmdOk ->
  run_command w cmd s = (Ok true, log (EvCommand cmd) s).
Proof. unfold run_command. by intros ->. Qed.

Lemma run_command_fail cmd s :
  command_outcome w (trace s) cmd = CmdFail ->
  run_command w cmd s = (Ok false, log (EvCommand cmd) s).
Proof. unfold run_command. by intros ->. Qed.

Lemma run_command_raise cmd s msg :
  command_outcome w (trace s) cmd = CmdRaise msg ->
  run_command w cmd s = (Raise msg, log (EvCommand cmd) s).
Proof. unfold run_command. by intros ->. Qed.

Lemma persist_run r s :
  persist w r s = (Ok (save_result w r s).1, (save_result w r s).2).
Proof. unfold persist. by destruct (save_result w r s). Qed.

Lemma save_result_trace r s :
  trace (save_result w r s).2 = trace s ++ [EvAppendResult r].
Proof. unfold save_result. by destruct (append_result _ _ _ _). Qed.

Lemma save_result_results r s :
  results (save_result w r s).2
  = (append_result (can_create w (trace s)) (can_write w (trace s)) (results s) r).2.
Proof. unfold save_result. by destruct (append_result _ _ _ _). Qed.

Lemma save_result_progress r s :
  progress_store (save_result w r s).2 = progress_store s.
Proof. unfold save_result. by destruct (append_result _ _ _ _). Qed.

(** When both writes succeed the record is in the file afterwards. *)
Lemma save_result_stored r s :
  can_create w (trace s) = Written -> can_write w (trace s) = Written ->
  r ∈ stored (results (save_result w r s).2).
Proof.
  intros Hc Hw. rewrite save_result_results, Hc, Hw.
  by destruct (append_result_stores (results s) r) as (records & -> & Hin).
Qed.

(** What a call of [save_result] leaves behind. *)
Lemma save_result_effect r s :
  trace (save_result w r s).2 = trace s ++ [EvAppendResult r]
  /\ progress_store (save_result w r s).2 = progress_store s
  /\ results (save_result w r s).2
     = (append_result (can_create w (trace s)) (can_write w (trace s)) (results s) r).2
  /\ (can_create w (trace s) = Written -> can_write w (trace s) = Written ->
      exists i, list_find (fun e => commit e = commit r)
                  (stored (results (save_result w r s).2)) = Some (i, r)).
Proof.
  split_and!.
  - apply save_result_trace.
  - apply save_result_progress.
  - apply save_result_results.
  - intros Hc Hw. rewrite save_result_results, Hc, Hw.
    destruct (upsert_find (stored (results s)) r) as (i & Hfind & _).
    exists i. by destruct (results s).
Qed.

(** A test loop that returns has added pairs of its own tests and focal
    methods only, and its counter has grown by their number. *)
Lemma test_loop_result clean focal_methods tests pairs n s pairs' n' s' :
  test_loop w clean focal_methods tests pairs n s = (Ok (pairs', n'), s') ->
  exists extra,
    pairs' = pairs ++ extra /\ n' = n + length extra
    /\ Forall (fun p => test_method_id p ∈ tests
                        /\ focal_method_id p ∈ focal_methods) extra.
Proof.
  revert pairs n s.
  induction tests as [|t rest IH]; simpl; intros pairs n s H.
  - injection H as <- <- <-. exists []. rewrite app_nil_r. split_and!; [done|simpl; lia|done].
  - assert (Hweak : forall pairs n s,
              test_loop w clean focal_methods rest pairs n s = (Ok (pairs', n'), s') ->
              exists extra,
                pairs' = pairs ++ extra /\ n' = n + length extra
                /\ Forall (fun p => test_method_id p ∈ t :: rest
                                    /\ focal_method_id p ∈ focal_methods) extra).
    { intros ps m s0 H0. destruct (IH _ _ _ H0) as (extra & ? & ? & Hall).
      exists extra. split_and!; [done..|].
      eapply Forall_impl; [exact Hall|]. intros p [? ?]. split; [by right|done]. }
    apply bind_inv_ok in H as (_ & s1 & _ & H).
    apply bind_inv_ok in H as (parsed & s2 & _ & H).
    destruct parsed as [[[cls mth] ps]|]; [|by eapply Hweak].
    destruct (PyStr.falsy cls || PyStr.falsy mth); [by eapply Hweak|].
    apply bind_inv_ok in H as (_ & s3 & _ & H).
    apply bind_inv_ok in H as (ran & s4 & _ & H).
    destruct ran; [|by eapply Hweak].
    apply bind_inv_ok in H as (cov & s5 & Hcov & H).
    destruct (Hweak _ _ _ H) as (extra & -> & -> & Hall).
    exists (map (make_pair t) cov ++ extra).
    rewrite app_assoc, length_app, length_map. split_and!; [done|lia|].
    apply Forall_app. split; [|done].
    apply Forall_forall. intros p (f & -> & Hf)%list_elem_of_fmap. simpl.
    split; [by left|].
    unfold read_coverage in Hcov. injection Hcov as <- _.
    eapply elem_of_sublist; [done | apply check_jacoco_coverage_sublist].
Qed.

Lemma new_phase_result c s pairs n s' :
  new_phase w c s = (Ok (pairs, n), s') ->
  n = length pairs
  /\ Forall (fun p => test_method_id p ∈ test_methods_new c
                      /\ focal_method_id p ∈ focal_methods_new c) pairs.
Proof.
  intros H. apply bind_inv_ok in H as (_ & s1 & _ & H).
  by apply test_loop_result in H as (extra & -> & -> & Hall).
Qed.

Lemma old_phase_result c s pairs n s' :
  old_phase w c s = (Ok (pairs, n), s') ->
  n = length pairs
  /\ Forall (fun p => test_method_id p ∈ test_methods_old c
                      /\ focal_method_id p ∈ focal_methods_old c) pairs.
Proof.
  intros H. apply bind_inv_ok in H as (_ & s1 & _ & H).
  apply bind_inv_ok in H as (_ & s2 & _ & H).
  by apply test_loop_result in H as (extra & -> & -> & Hall).
Qed.

End Verifier.

(** ** The commit verifier *)

Lemma prev_of_ne commit_id : prev_of commit_id <> commit_id.
Proof.
  unfold prev_of. induction commit_id as [|ch rest IH]; simpl; [discriminate|].
  intros [= H]. by apply IH.
Qed.

Lemma appended_app tr1 tr2 : appended (tr1 ++ tr2) = appended tr1 ++ appended tr2.
Proof. apply omap_app. Qed.

Lemma appended_external evs :
  Forall (fun ev => is_external ev = true) evs -> appended evs = [].
Proof.
  induction 1 as [|ev evs Hev _ IH]; [done|].
  destruct ev; try discriminate; exact IH.
Qed.

Lemma driver_view_app tr1 tr2 :
  driver_view (tr1 ++ tr2) = driver_view tr1 ++ driver_view tr2.
Proof. apply omap_app. Qed.

Lemma driver_view_external evs :
  Forall (fun ev => is_external ev = true) evs -> driver_view evs = [].
Proof.
  induction 1 as [|ev evs Hev _ IH]; [done|].
  destruct ev; try discriminate; exact IH.
Qed.

Section VerifierCases.
Variable w : World.

(** The three ways the [try] block ends: the checkout of the commit fails
    and nothing is stored; an exception is raised and nothing has been
    stored yet; or one record of the commit is stored as the last step. *)
Lemma verify_cases c s :
  exists evs,
    Forall (fun ev => is_external ev = true) evs
    /\ ((command_outcome w (trace s) (checkout_cmd (sha1 c)) = CmdFail
         /\ verify w c s = (Ok false, extend s evs))
        \/ (exists msg, verify w c s = (Raise msg, extend s evs))
        \/ (exists b r, verify w c s = (Ok b, (save_result w r (extend s evs)).2)
                        /\ commit r = sha1 c)).
Proof.
  unfold verify.
  set (ck := EvCommand (checkout_cmd (sha1 c))).
  assert (Hck : Forall (fun ev => is_external ev = true) [ck]) by by repeat constructor.
  destruct (command_outcome w (trace s) (checkout_cmd (sha1 c))) as [| |msg] eqn:Hout.
  2:{ exists [ck]. split; [done|]. left. split; [done|].
      by rewrite (bind_ok _ _ _ _ _ (run_command_fail w _ _ Hout)). }
  2:{ exists [ck]. split; [done|]. right. left. exists msg.
      by rewrite (bind_raise _ _ _ _ _ (run_command_raise w _ _ _ Hout)). }
  rewrite (bind_ok _ _ _ _ _ (run_command_ok w _ _ Hout)). cbn [negb].
  rewrite log_extend.
  destruct (new_phase_builds w c (extend s [ck])) as (r1 & e1 & H1 & Q1).
  rewrite extend_extend in H1.
  assert (Q1' : Forall (fun ev => is_external ev = true) ([ck] ++ e1)).
  { apply Forall_app. split; [done|].
    eapply Forall_impl; [exact Q1 | apply is_build_external]. }
  destruct r1 as [[new_pairs n]|msg].
  2:{ exists ([ck] ++ e1). split; [done|]. right. left. exists msg.
      by rewrite (bind_raise _ _ _ _ _ H1). }
  rewrite (bind_ok _ _ _ _ _ H1).
  destruct (n <? 2).
  { exists ([ck] ++ e1). split; [done|]. right. right.
    eexists false, _. rewrite (bind_ok _ _ _ _ _ (persist_run w _ _)).
    by split. }
  set (s1 := extend s ([ck] ++ e1)).
  set (ci := EvCommitInfo (prev_of (sha1 c))).
  set (ck2 := EvCommand (checkout_cmd (prev_of (sha1 c)))).
  assert (Hci : get_commit_info (prev_of (sha1 c)) s1 = (Ok tt, extend s1 [ci])) by done.
  rewrite (bind_ok _ _ _ _ _ Hci). unfold s1. rewrite extend_extend.
  set (s2 := extend s (([ck] ++ e1) ++ [ci])).
  assert (Q2 : Forall (fun ev => is_external ev = true) (([ck] ++ e1) ++ [ci])).
  { apply Forall_app. split; [done | by repeat constructor]. }
  assert (Q3 : Forall (fun ev => is_external ev = true)
                 ((([ck] ++ e1) ++ [ci]) ++ [ck2])).
  { apply Forall_app. split; [done | by repeat constructor]. }
  destruct (command_outcome w (trace s2) (checkout_cmd (prev_of (sha1 c))))
    as [| |msg] eqn:Hout2.
  2:{ rewrite (bind_ok _ _ _ _ _ (run_command_fail w _ _ Hout2)). cbn [negb].
      rewrite log_extend. unfold s2. rewrite extend_extend.
      eexists. split; [exact Q3|]. right. right.
      eexists false, _. rewrite (bind_ok _ _ _ _ _ (persist_run w _ _)).
      by split. }
  2:{ rewrite (bind_raise _ _ _ _ _ (run_command_raise w _ _ _ Hout2)).
      rewrite log_extend. unfold s2. rewrite extend_extend.
      eexists. split; [exact Q3|]. right. left. by exists msg. }
  rewrite (bind_ok _ _ _ _ _ (run_command_ok w _ _ Hout2)). cbn [negb].
  rewrite log_extend. unfold s2. rewrite extend_extend.
  destruct (old_phase_builds w c (extend s ((([ck] ++ e1) ++ [ci]) ++ [ck2])))
    as (r4 & e4 & H4 & Q4).
  rewrite extend_extend in H4.
  assert (Q4' : Forall (fun ev => is_external ev = true)
                  (((([ck] ++ e1) ++ [ci]) ++ [ck2]) ++ e4)).
  { apply Forall_app. split; [done|].
    eapply Forall_impl; [exact Q4 | apply is_build_external]. }
  exists (((([ck] ++ e1) ++ [ci]) ++ [ck2]) ++ e4). split; [done|].
  destruct r4 as [[old_pairs m]|msg].
  2:{ right. left. exists msg. by rewrite (bind_raise _ _ _ _ _ H4). }
  rewrite (bind_ok _ _ _ _ _ H4). right. right.
  destruct (m <? 2).
  - eexists false, _. rewrite (bind_ok _ _ _ _ _ (persist_run w _ _)). by split.
  - eexists true, _. rewrite (bind_ok _ _ _ _ _ (persist_run w _ _)). by split.
Qed.

(** A call of the verifier adds working-directory events and at most one
    record, and never touches the progress file. *)
Lemma process_single_commit_frame c name s :
  exists evs,
    trace (process_single_commit w c name s).2 = trace s ++ evs
    /\ driver_view evs = []
    /\ length (appended evs) <= 1
    /\ progress_store (process_single_commit w c name s).2 = progress_store s.
Proof.
  unfold process_single_commit.
  destruct (is_commit_processed _ _ _).
  { exists []. simpl. rewrite app_nil_r. split_and!; [done..|lia|done]. }
  destruct (rejected c).
  { exists []. simpl. rewrite app_nil_r. split_and!; [done..|lia|done]. }
  destruct (verify_cases c s) as (evs & Q & [(_ & ->)|[(msg & ->)|(b & r & -> & _)]]).
  - exists evs. simpl. split_and!; [done| by apply driver_view_external | | done].
    rewrite appended_external by done. simpl. lia.
  - exists (evs ++ [EvAppendResult (error_result (sha1 c) msg)]). simpl.
    rewrite save_result_trace, save_result_progress. simpl.
    rewrite app_assoc, driver_view_app, appended_app,
      driver_view_external, appended_external by done.
    split_and!; [done..|simpl; lia|done].
  - exists (evs ++ [EvAppendResult r]). simpl.
    rewrite save_result_trace, save_result_progress. simpl.
    rewrite app_assoc, driver_view_app, appended_app,
      driver_view_external, appended_external by done.
    split_and!; [done..|simpl; lia|done].
Qed.

End VerifierCases.

Lemma rejected_spec c :
  rejected c = true <->
  (40 <= length (test_methods_new c) \/ 40 <= length (focal_methods_new c)
   \/ 40 <= length (test_methods_old c) \/ 40 <= length (focal_methods_old c)
   \/ test_methods_new c = [] \/ focal_methods_new c = []
   \/ test_methods_old c = [] \/ focal_methods_old c = []).
Proof.
  unfold rejected.
  rewrite !orb_true_iff, !Nat.leb_le, !Nat.eqb_eq, !length_zero_iff_nil. tauto.
Qed.

Lemma is_commit_processed_spec file name commit_sha :
  is_commit_processed file name commit_sha = true
  <-> commit_sha ∈ processed_commits (load_progress file name).
Proof. unfold is_commit_processed. apply bool_decide_eq_true. Qed.

(** C6 (as amended): a commit descriptor with 40 or more entries in a test or
    focal set of either revision, or with one of the four sets empty, leaves
    the state as it was: no command is run, nothing is stored.  The verifier
    reports it as failed unless the commit is already listed in the persisted
    [processed_commits], in which case it is reported as a success. *)
Theorem C6_admission_filter (w : World) (c : CommitInfo) (name : string) (s : State) :
  (40 <= length (test_methods_new c) \/ 40 <= length (focal_methods_new c)
   \/ 40 <= length (test_methods_old c) \/ 40 <= length (focal_methods_old c)
   \/ test_methods_new c = [] \/ focal_methods_new c = []
   \/ test_methods_old c = [] \/ focal_methods_old c = []) ->
  (process_single_commit w c name s).2 = s
  /\ (process_single_commit w c name s).1
     = is_commit_processed (progress_store s) name (sha1 c)
  /\ (sha1 c ∉ processed_commits (load_progress (progress_store s) name) ->
      process_single_commit w c name s = (false, s)).
Proof.
  intros H%rejected_spec. unfold process_single_commit. rewrite H.
  destruct (is_commit_processed _ _ _) eqn:Hp; split_and!; try done.
  intros Hn. by apply is_commit_processed_spec in Hp.
Qed.

Lemma C6_admission_filter_witness :
  (process_single_commit calm_world wide_commit "proj" initial_state).2 = initial_state
  /\ process_single_commit calm_world wide_commit "proj" initial_state
     = (false, initial_state).
Proof.
  assert (H : 40 <= length (test_methods_new wide_commit)
              \/ 40 <= length (focal_methods_new wide_commit)
              \/ 40 <= length (test_methods_old wide_commit)
              \/ 40 <= length (focal_methods_old wide_commit)
              \/ test_methods_new wide_commit = [] \/ focal_methods_new wide_commit = []
              \/ test_methods_old wide_commit = [] \/ focal_methods_old wide_commit = []).
  { left. simpl. lia. }
  destruct (C6_admission_filter calm_world wide_commit "proj" initial_state H)
    as (H1 & _ & H3).
  split; [exact H1|]. apply H3. simpl. apply not_elem_of_nil.
Defined.

(** C6 (as stated) fails: a commit with 41 test methods for the new revision
    that is already listed as processed is reported as a success. *)
Lemma C6_counterexample :
  length (test_methods_new wide_commit) = 41
  /\ process_single_commit calm_world wide_commit "proj" resumed_state
     = (true, resumed_state).
Proof. split; reflexivity. Qed.

(** C8 (as amended): an invocation on a commit that is not listed as
    processed, passes the admission filter and whose checkout of the new
    revision does not return failure hands exactly one record, carrying the
    commit identifier, to the accumulator, as its last step; everything
    before it is a working-directory event. *)
Theorem C8_one_result_per_verification (w : World) (c : CommitInfo)
  (name : string) (s : State) :
  is_commit_processed (progress_store s) name (sha1 c) = false ->
  rejected c = false ->
  command_outcome w (trace s) (checkout_cmd (sha1 c)) <> CmdFail ->
  exists success evs r,
    process_single_commit w c name s
    = (success, (save_result w r (extend s evs)).2)
    /\ Forall (fun ev => is_external ev = true) evs
    /\ commit r = sha1 c
    /\ appended (trace (process_single_commit w c name s).2)
       = appended (trace s) ++ [r]
    /\ results (process_single_commit w c name s).2
       = (append_result (can_create w (trace s ++ evs)) (can_write w (trace s ++ evs))
            (results s) r).2.
Proof.
  intros Hp Hr Hck. unfold process_single_commit. rewrite Hp, Hr.
  destruct (verify_cases w c s) as (evs & Q & [(Hf & _)|[(msg & ->)|(b & r & -> & Hc)]]);
    [done| |].
  - exists false, evs, (error_result (sha1 c) msg). simpl.
    rewrite save_result_trace, save_result_results. simpl.
    rewrite !appended_app, (appended_external evs Q), app_nil_r.
    by split_and!.
  - exists b, evs, r. simpl.
    rewrite save_result_trace, save_result_results. simpl.
    rewrite !appended_app, (appended_external evs Q), app_nil_r.
    by split_and!.
Qed.

Lemma C8_one_result_per_verification_witness :
  exists success evs r,
    process_single_commit calm_world small_commit "proj" initial_state
    = (success, (save_result calm_world r (extend initial_state evs)).2)
    /\ commit r = "abc123".
Proof.
  destruct (C8_one_result_per_verification calm_world small_commit "proj" initial_state
              eq_refl eq_refl ltac:(discriminate))
    as (success & evs & r & H1 & _ & H3 & _).
  exists success, evs, r. split; [exact H1 | exact H3].
Defined.

(** C8 (as stated) fails: a commit rejected by the admission filter leaves no
    record: nothing is handed to the accumulator and no file is created. *)
Lemma C8_counterexample :
  rejected wide_commit = true
  /\ process_single_commit calm_world wide_commit "proj" initial_state
     = (false, initial_state)
  /\ appended (trace initial_state) = []
  /\ results initial_state = ResultsMissing.
Proof. split_and!; reflexivity. Qed.

(** C2: for a commit that is not listed as processed and passes the
    admission filter, once the checkout succeeds and the new-revision phase
    returns its pairs: the counter equals the number of pairs.  With fewer
    than 2 pairs the call returns [False]; its next and last step hands the
    accumulator the record of this commit with status failed, reason
    new_coverage_less_than_2 and both pair lists empty; no checkout of the
    parent has taken place; and when the writes of the results file succeed
    that record is the one the file holds for the commit.  With at least 2
    pairs, once the parent is checked out and the old-revision phase returns
    its pairs: at least 2 of them make the call return [True] and persist, in
    the same way, the record with status success, no reason and exactly the
    two observed pair lists; fewer than 2 make it return [False] and persist
    the record with status failed, reason old_coverage_less_than_2 and both
    pair lists empty. *)
Theorem C2_threshold_gates (w : World) (c : CommitInfo) (name : string)
  (s s2 : State) (observed_new : list Pair) (new_coverage_count : nat) :
  is_commit_processed (progress_store s) name (sha1 c) = false ->
  rejected c = false ->
  command_outcome w (trace s) (checkout_cmd (sha1 c)) = CmdOk ->
  new_phase w c (log (EvCommand (checkout_cmd (sha1 c))) s)
  = (Ok (observed_new, new_coverage_count), s2) ->
  new_coverage_count = length observed_new
  /\ (length observed_new < 2 ->
      let r := {| commit := sha1 c; new_pairs := []; old_pairs := [];
                  status := "failed";
                  reason := Some "new_coverage_less_than_2";
                  error_message := None |} in
      exists final,
        process_single_commit w c name s = (false, final)
        /\ trace final = trace s2 ++ [EvAppendResult r]
        /\ progress_store final = progress_store s2
        /\ results final
           = (append_result (can_create w (trace s2)) (can_write w (trace s2))
                (results s2) r).2
        /\ (can_create w (trace s2) = Written -> can_write w (trace s2) = Written ->
            exists i, list_find (fun e => commit e = sha1 c) (stored (results final))
                      = Some (i, r))
        /\ exists evs, s2 = extend s evs
                       /\ EvCommand (checkout_cmd (prev_of (sha1 c))) ∉ evs)
  /\ (2 <= length observed_new ->
      forall (s4 : State) (observed_old : list Pair) (old_coverage_count : nat),
        command_outcome w (trace s2 ++ [EvCommitInfo (prev_of (sha1 c))])
          (checkout_cmd (prev_of (sha1 c))) = CmdOk ->
        old_phase w c
          (log (EvCommand (checkout_cmd (prev_of (sha1 c))))
             (log (EvCommitInfo (prev_of (sha1 c))) s2))
        = (Ok (observed_old, old_coverage_count), s4) ->
        old_coverage_count = length observed_old
        /\ (2 <= length observed_old ->
            let r := {| commit := sha1 c; new_pairs := observed_new;
                        old_pairs := observed_old; status := "success";
                        reason := None; error_message := None |} in
            exists final,
              process_single_commit w c name s = (true, final)
              /\ trace final = trace s4 ++ [EvAppendResult r]
              /\ progress_store final = progress_store s4
              /\ results final
                 = (append_result (can_create w (trace s4)) (can_write w (trace s4))
                      (results s4) r).2
              /\ (can_create w (trace s4) = Written ->
                  can_write w (trace s4) = Written ->
                  exists i, list_find (fun e => commit e = sha1 c)
                              (stored (results final)) = Some (i, r)))
        /\ (length observed_old < 2 ->
            let r := {| commit := sha1 c; new_pairs := []; old_pairs := [];
                        status := "failed";
                        reason := Some "old_coverage_less_than_2";
                        error_message := None |} in
            exists final,
              process_single_commit w c name s = (false, final)
              /\ trace final = trace s4 ++ [EvAppendResult r]
              /\ progress_store final = progress_store s4
              /\ results final
                 = (append_result (can_create w (trace s4)) (can_write w (trace s4))
                      (results s4) r).2
              /\ (can_create w (trace s4) = Written ->
                  can_write w (trace s4) = Written ->
                  exists i, list_find (fun e => commit e = sha1 c)
                              (stored (results final)) = Some (i, r)))).
Proof.
  intros Hp Hr Hck Hnew.
  destruct (new_phase_result w _ _ _ _ _ Hnew) as (-> & _).
  assert (Hverify : verify w c s
            = (let '(observed_new, new_coverage_count) := (observed_new, length observed_new) in
               if new_coverage_count <? 2 then
                 persist w (failed_result (sha1 c) "new_coverage_less_than_2") ;;; ret false
               else
                 get_commit_info (prev_of (sha1 c)) ;;;
                 switched <- run_command w (checkout_cmd (prev_of (sha1 c))) ;;
                 if negb switched then
                   persist w (failed_result (sha1 c) "failed_to_switch_to_prev_commit") ;;;
                   ret false
                 else
                   old <- old_phase w c ;;
                   let '(observed_old, old_coverage_count) := old in
                   if old_coverage_count <? 2 then
                     persist w (failed_result (sha1 c) "old_coverage_less_than_2") ;;;
                     ret false
                   else
                     persist w (success_result (sha1 c) observed_new observed_old) ;;; ret true)
              s2).
  { unfold verify.
    rewrite (bind_ok _ _ _ _ _ (run_command_ok w _ _ Hck)). cbn [negb].
    by rewrite (bind_ok _ _ _ _ _ Hnew). }
  cbv beta iota in Hverify.
  unfold process_single_commit. rewrite Hp, Hr, Hverify. clear Hverify.
  split; [done|]. split.
  - intros Hlt. pose (r := failed_result (sha1 c) "new_coverage_less_than_2").
    apply Nat.ltb_lt in Hlt. rewrite Hlt.
    rewrite (bind_ok _ _ _ _ _ (persist_run w _ _)).
    destruct (save_result_effect w r s2) as (Htr & Hpr & Hres & Hfind).
    exists (save_result w r s2).2. split_and!; [done..|].
    destruct (new_phase_builds w c (log (EvCommand (checkout_cmd (sha1 c))) s))
      as (r' & evs & Hrun & Q).
    rewrite Hnew in Hrun. injection Hrun as _ ->.
    rewrite log_extend, extend_extend. eexists. split; [done|].
    intros [Hin|Hin]%elem_of_app.
    + apply list_elem_of_singleton in Hin. injection Hin as Hin.
      by apply prev_of_ne in Hin.
    + by apply (proj1 (Forall_forall _ _) Q) in Hin.
  - intros Hge s4 observed_old old_coverage_count Hck2 Hold.
    destruct (old_phase_result w _ _ _ _ _ Hold) as (-> & _).
    apply Nat.ltb_ge in Hge. rewrite Hge.
    assert (Hci : get_commit_info (prev_of (sha1 c)) s2
                  = (Ok tt, log (EvCommitInfo (prev_of (sha1 c))) s2)) by done.
    rewrite (bind_ok _ _ _ _ _ Hci).
    rewrite (bind_ok _ _ _ _ _
               (run_command_ok w _ (log (EvCommitInfo (prev_of (sha1 c))) s2) Hck2)).
    cbn [negb].
    rewrite (bind_ok _ _ _ _ _ Hold).
    split; [done|]. split.
    + intros H2. pose (r := success_result (sha1 c) observed_new observed_old).
      apply Nat.ltb_ge in H2. rewrite H2.
      rewrite (bind_ok _ _ _ _ _ (persist_run w _ _)).
      destruct (save_result_effect w r s4) as (Htr & Hpr & Hres & Hfind).
      by exists (save_result w r s4).2.
    + intros H2. pose (r := failed_result (sha1 c) "old_coverage_less_than_2").
      apply Nat.ltb_lt in H2. rewrite H2.
      rewrite (bind_ok _ _ _ _ _ (persist_run w _ _)).
      destruct (save_result_effect w r s4) as (Htr & Hpr & Hres & Hfind).
      by exists (save_result w r s4).2.
Qed.

Lemma C2_threshold_gates_witness :
  (process_single_commit covering_world paired_commit "proj" initial_state).1 = true
  /\ stored (results (process_single_commit covering_world paired_commit "proj"
                        initial_state).2)
     = [ {| commit := "abc123"; new_pairs := both_pairs; old_pairs := both_pairs;
            status := "success"; reason := None; error_message := None |} ].
Proof.
  edestruct (C2_threshold_gates covering_world paired_commit "proj" initial_state)
    as (_ & _ & Hsuccess); [reflexivity..|].
  edestruct Hsuccess as (_ & Hrun & _); [simpl; lia | reflexivity..|].
  destruct Hrun as (final & Hrun & _ & _ & Hres & _); [simpl; lia|].
  rewrite Hrun. cbn [fst snd]. rewrite Hres. split; reflexivity.
Defined.

(** The first case of the design document's threshold test: one covered pair
    only. *)
Example threshold_gate_one_pair :
  let c := {| sha1 := "abc123";
              focal_methods_new := ["com.example.Foo.bar(int)"];
              focal_methods_old := ["com.example.Foo.bar(int)"];
              test_methods_new := ["com.example.FooTest.testBar()"];
              test_methods_old := ["com.example.FooTest.testBar()"] |} in
  let out := process_single_commit covering_world c "proj" initial_state in
  out.1 = false
  /\ stored (results out.2) = [failed_result "abc123" "new_coverage_less_than_2"].
Proof. split; reflexivity. Qed.

(** ** The driver's steps *)

Lemma rounds_S k n :
  rounds k (S n) = Saved k :: Processed k :: Saved k :: rounds (S k) n.
Proof. reflexivity. Qed.

Lemma processed_indices_rounds k n f :
  processed_indices (rounds k n ++ [Saved f]) = seq k n.
Proof.
  revert k. induction n as [|n IH]; intros k; [done|].
  rewrite rounds_S. unfold processed_indices in *. simpl. by rewrite IH.
Qed.

Lemma processed_indices_elem i steps :
  Processed i ∈ steps <-> i ∈ processed_indices steps.
Proof.
  unfold processed_indices. rewrite list_elem_of_omap. split.
  - intros H. by exists (Processed i).
  - intros ([j|j] & Hin & Heq); [discriminate|]. by injection Heq as ->.
Qed.

Lemma rounds_bracket n : forall k f pre i post,
  rounds k n ++ [Saved f] = pre ++ Processed i :: post ->
  last pre = Some (Saved i) /\ head post = Some (Saved i).
Proof.
  induction n as [|n IH]; intros k f pre i post H.
  - destruct pre as [|x [|y pre]]; discriminate.
  - rewrite rounds_S in H.
    destruct pre as [|x [|y [|z pre]]]; simpl in H.
    + discriminate.
    + injection H as ? ? ?; subst. done.
    + discriminate.
    + injection H as ? ? ? H; subst.
      destruct (IH _ _ _ _ _ H) as (Hl & Hh). split; [|done].
      destruct pre; [discriminate|done].
Qed.

Lemma cursors_lower_bound n : forall k k' f,
  k <= k' -> k <= f -> Forall (le k) (cursors (rounds k' n ++ [Saved f])).
Proof.
  induction n as [|n IH]; intros k k' f Hk Hf.
  - by repeat constructor.
  - rewrite rounds_S. unfold cursors in *. simpl.
    repeat (constructor; [done|]). apply IH; lia.
Qed.

Lemma cursors_sorted n : forall k f,
  (n = 0 \/ k + n - 1 <= f) ->
  StronglySorted le (cursors (rounds k n ++ [Saved f])).
Proof.
  induction n as [|n IH]; intros k f Hf.
  - by repeat constructor.
  - rewrite rounds_S.
    assert (Hlow : Forall (le k) (cursors (rounds (S k) n ++ [Saved f]))).
    { apply cursors_lower_bound; lia. }
    assert (Hrest : StronglySorted le (cursors (rounds (S k) n ++ [Saved f]))).
    { apply IH. lia. }
    unfold cursors in *. simpl.
    constructor; [|by constructor].
    by constructor.
Qed.

Section Driver.
Variable w : World.

Lemma checkpoint_persists p s :
  can_write w (trace s) = Written ->
  progress_store (checkpoint w p s) = ProgressStored p.
Proof. unfold checkpoint, save_progress. simpl. by intros ->. Qed.

(** The loop saves, calls the verifier and saves again, once for every
    commit that is left, whatever the calls do. *)
Lemma commit_loop_view name todo : forall idx progress s,
  exists evs,
    trace (commit_loop w name idx todo progress s).2 = trace s ++ evs
    /\ driver_view evs = rounds idx (length todo)
    /\ current_index (commit_loop w name idx todo progress s).1
       = match todo with
         | [] => current_index progress
         | _ => idx + length todo - 1
         end.
Proof.
  induction todo as [|c rest IH]; intros idx progress s.
  - exists []. simpl. by rewrite app_nil_r.
  - simpl.
    set (p1 := set_index idx progress).
    set (s1 := log (EvProcessCommit idx (sha1 c)) (checkpoint w p1 s)).
    destruct (process_single_commit_frame w c name s1) as (e0 & Htr & Hv & _ & _).
    destruct (process_single_commit w c name s1) as [success s2]. simpl in Htr.
    set (p2 := record_outcome success (sha1 c) p1).
    destruct (IH (S idx) p2 (checkpoint w p2 s2)) as (e1 & Htr1 & Hv1 & Hc1).
    exists ([EvSaveProgress p1; EvProcessCommit idx (sha1 c)] ++ e0
            ++ [EvSaveProgress p2] ++ e1).
    split_and!.
    + rewrite Htr1. simpl. rewrite Htr. simpl. by rewrite <- !app_assoc.
    + rewrite !driver_view_app, Hv, Hv1. done.
    + rewrite Hc1. destruct rest; simpl; lia.
Qed.

(** The loop over two runs of commits put together is the loop over the
    first followed by the loop over the second. *)
Lemma commit_loop_app name todo1 : forall todo2 idx progress s,
  commit_loop w name idx (todo1 ++ todo2) progress s
  = commit_loop w name (idx + length todo1) todo2
      (commit_loop w name idx todo1 progress s).1
      (commit_loop w name idx todo1 progress s).2.
Proof.
  induction todo1 as [|c rest IH]; intros todo2 idx progress s.
  - simpl. by rewrite Nat.add_0_r.
  - simpl.
    destruct (process_single_commit w c name _) as [success s2].
    rewrite IH. by rewrite Nat.add_succ_r.
Qed.

Lemma run_project_unfold name commits_data s :
  run_project w name commits_data s
  = match command_outcome w (trace s) git_status_cmd with
    | CmdRaise msg => (Raise msg, log (EvCommand git_status_cmd) s)
    | _ =>
        let start := starting_progress (progress_store s) name (length commits_data) in
        let done :=
          commit_loop w name (current_index start)
            (drop (current_index start) commits_data) start
            (log (EvCommand git_status_cmd) s) in
        (Ok tt, checkpoint w (set_status "completed" done.1) done.2)
    end.
Proof.
  unfold run_project, run_command, starting_progress.
  destruct (command_outcome w (trace s) git_status_cmd); [| |done];
    by destruct (commit_loop _ _ _ _ _ _).
Qed.

Lemma commit_loop_attempts_all name todo idx progress s :
  exists evs,
    trace (commit_loop w name idx todo progress s).2 = trace s ++ evs
    /\ processed_indices (driver_view evs) = seq idx (length todo).
Proof.
  destruct (commit_loop_view name todo idx progress s) as (evs & Htr & Hv & _).
  exists evs. split; [done|]. rewrite Hv.
  rewrite <- (processed_indices_rounds idx (length todo) 0).
  unfold processed_indices. rewrite omap_app. simpl. by rewrite app_nil_r.
Qed.

End Driver.

Lemma driver_steps_properties k total steps :
  steps = rounds k (total - k) ++ [Saved (final_cursor k total)] \/ steps = [] ->
  (forall pre i post, steps = pre ++ Processed i :: post ->
     last pre = Some (Saved i) /\ head post = Some (Saved i))
  /\ (forall i, Processed i ∈ steps -> k <= i < total)
  /\ (forall i, head (processed_indices steps) = Some i -> i = k)
  /\ StronglySorted le (cursors steps).
Proof.
  intros [->| ->].
  - split_and!.
    + intros pre i post H. by eapply rounds_bracket.
    + intros i Hi%processed_indices_elem.
      rewrite processed_indices_rounds in Hi. apply elem_of_seq in Hi. lia.
    + intros i. rewrite processed_indices_rounds.
      destruct (total - k); simpl; congruence.
    + apply cursors_sorted. unfold final_cursor. case_decide; lia.
  - split_and!.
    + intros [|? ?] ? ? ?; discriminate.
    + intros i Hi. by apply elem_of_nil in Hi.
    + discriminate.
    + constructor.
Qed.

(** C3: for every run of a project.  Let [k] be the cursor of the persisted
    record (0 when the progress file is missing or unreadable, or its status
    is "not_started").  The calls of the verifier are those for the indices
    [k], [k+1], ... up to the last one, in this order, so none is made for an
    index below [k], and the cursors of the successive checkpoints never
    decrease.  For the commit of every index [i] from [k] on, when the loop
    reaches it: the driver saves the record with the cursor set to [i] as
    the step right before the call, so that, when this write succeeds, the
    progress file holds the cursor [i] while the commit is verified (the
    verifier itself never writes the file); and its first step after the
    call has returned saves the record, with the cursor still [i], once
    more.  (A run whose initial [git status] raises makes no checkpoint and
    no call at all.) *)
Theorem C3_resumable_cursor (w : World) (name : string)
  (commits_data : list CommitInfo) (s : State) :
  let n := length commits_data in
  let k := match progress_store s with
           | ProgressStored data =>
               if String.eqb (run_status data) "not_started" then 0
               else current_index data
           | _ => 0
           end in
  let start := starting_progress (progress_store s) name n in
  let s1 := log (EvCommand git_status_cmd) s in
  current_index start = k
  /\ (exists evs,
        trace (run_project w name commits_data s).2 = trace s ++ evs
        /\ (driver_view evs = rounds k (n - k) ++ [Saved (final_cursor k n)]
            \/ (exists msg, command_outcome w (trace s) git_status_cmd = CmdRaise msg)
               /\ driver_view evs = [])
        /\ (forall pre i post, driver_view evs = pre ++ Processed i :: post ->
              last pre = Some (Saved i) /\ head post = Some (Saved i))
        /\ (forall i, Processed i ∈ driver_view evs -> k <= i < n)
        /\ (forall i, head (processed_indices (driver_view evs)) = Some i -> i = k)
        /\ StronglySorted le (cursors (driver_view evs)))
  /\ (forall i c,
        k <= i -> commits_data !! i = Some c ->
        (forall msg, command_outcome w (trace s) git_status_cmd <> CmdRaise msg) ->
        exists p_i s_i b s_done earlier mid later,
          let p := set_index i p_i in
          let s_call := log (EvProcessCommit i (sha1 c)) (checkpoint w p s_i) in
          let q := record_outcome b (sha1 c) p in
          let s_next := checkpoint w q s_done in
          commit_loop w name k (take (i - k) (drop k commits_data)) start s1
          = (p_i, s_i)
          /\ process_single_commit w c name s_call = (b, s_done)
          /\ commit_loop w name k (take (S i - k) (drop k commits_data)) start s1
             = (q, s_next)
          /\ trace s_i = trace s ++ [EvCommand git_status_cmd] ++ earlier
          /\ trace s_done = trace s_call ++ mid
          /\ driver_view mid = []
          /\ trace (run_project w name commits_data s).2
             = trace s ++ [EvCommand git_status_cmd] ++ earlier
               ++ [EvSaveProgress p; EvProcessCommit i (sha1 c)] ++ mid
               ++ [EvSaveProgress q] ++ later
          /\ current_index p = i /\ current_index q = i
          /\ progress_store s_call
             = (save_progress (can_write w (trace s_i)) (progress_store s_i) p).2
          /\ (can_write w (trace s_i) = Written ->
              progress_store s_call = ProgressStored p)
          /\ progress_store s_done = progress_store s_call
          /\ (can_write w (trace s_done) = Written ->
              progress_store s_next = ProgressStored q)).
Proof.
  intros n k start s1.
  assert (Hk : current_index start = k).
  { unfold start, k, starting_progress, load_progress.
    destruct (progress_store s) as [| |data]; [done..|].
    by destruct (String.eqb (run_status data) "not_started"). }
  split; [exact Hk|]. split.
  - assert (Hshape : exists evs,
      trace (run_project w name commits_data s).2 = trace s ++ evs
      /\ (driver_view evs = rounds k (n - k) ++ [Saved (final_cursor k n)]
          \/ (exists msg, command_outcome w (trace s) git_status_cmd = CmdRaise msg)
             /\ driver_view evs = [])).
    { rewrite run_project_unfold. cbv zeta. fold n. fold start. fold s1. rewrite Hk.
      assert (Hloop : exists evs,
        trace (checkpoint w
                 (set_status "completed"
                    (commit_loop w name k (drop k commits_data) start s1).1)
                 (commit_loop w name k (drop k commits_data) start s1).2)
        = trace s ++ evs
        /\ driver_view evs = rounds k (n - k) ++ [Saved (final_cursor k n)]).
      { destruct (commit_loop_view w name (drop k commits_data) k start s1)
          as (evs & Htr & Hv & Hc).
        destruct (commit_loop w name k (drop k commits_data) start s1)
          as [progress' s']. simpl in *.
        exists ([EvCommand git_status_cmd] ++ evs
                ++ [EvSaveProgress (set_status "completed" progress')]).
        split; [rewrite Htr; simpl; by rewrite <- !app_assoc|].
        rewrite !driver_view_app, Hv, length_drop. simpl. do 3 f_equal.
        rewrite Hc. unfold final_cursor. case_decide as Hlt.
        - destruct (drop k commits_data) eqn:Hd.
          + apply (f_equal length) in Hd. rewrite length_drop in Hd.
            simpl in Hd. unfold n in Hlt. lia.
          + rewrite <- Hd, length_drop. unfold n. lia.
        - rewrite drop_ge by (unfold n in Hlt; lia). done. }
      destruct (command_outcome w (trace s) git_status_cmd) as [| |msg].
      - destruct Hloop as (evs & ? & ?). exists evs. by split; [|left].
      - destruct Hloop as (evs & ? & ?). exists evs. by split; [|left].
      - exists [EvCommand git_status_cmd]. split; [done|]. right.
        split; [by exists msg|done]. }
    destruct Hshape as (evs & Htr & Hshape). exists evs.
    split; [done|]. split; [done|].
    apply driver_steps_properties. destruct Hshape as [?|[_ ?]]; [by left | by right].
  - intros i c Hki Hc Hno.
    set (l := drop k commits_data). set (j := i - k).
    assert (Hl : l !! j = Some c).
    { unfold l, j. rewrite lookup_drop. by replace (k + (i - k)) with i by lia. }
    assert (Hlen : length (take j l) = j).
    { rewrite length_take. apply lookup_lt_Some in Hl. lia. }
    replace (S i - k) with (S j) by lia.
    destruct (commit_loop w name k (take j l) start s1) as [p_i s_i] eqn:Hpre.
    set (p := set_index i p_i).
    set (s_call := log (EvProcessCommit i (sha1 c)) (checkpoint w p s_i)).
    destruct (process_single_commit w c name s_call) as [b s_done] eqn:Hcall.
    set (q := record_outcome b (sha1 c) p).
    set (s_next := checkpoint w q s_done).
    destruct (commit_loop_view w name (take j l) k start s1)
      as (earlier & Hearlier & _).
    rewrite Hpre in Hearlier. simpl in Hearlier.
    destruct (process_single_commit_frame w c name s_call)
      as (mid & Hmid & Hview & _ & Hstore).
    rewrite Hcall in Hmid, Hstore. simpl in Hmid, Hstore.
    assert (Hstep : commit_loop w name k (take (S j) l) start s1 = (q, s_next)).
    { rewrite (take_S_r _ _ _ Hl), commit_loop_app, Hpre, Hlen. simpl.
      replace (k + j) with i by lia. fold p s_call. by rewrite Hcall. }
    destruct (commit_loop_view w name (drop (S j) l) (S i) q s_next)
      as (later & Hlater & _).
    exists p_i, s_i, b, s_done, earlier, mid,
      (later ++ [EvSaveProgress
                   (set_status "completed"
                      (commit_loop w name (S i) (drop (S j) l) q s_next).1)]).
    cbv zeta. fold p s_call q s_next.
    split_and!; try done.
    + rewrite Hearlier. simpl. by rewrite <- app_assoc.
    + rewrite run_project_unfold. cbv zeta. fold n. fold start. fold s1. rewrite Hk. fold l.
      assert (Hrun : commit_loop w name k l start s1
                     = commit_loop w name (S i) (drop (S j) l) q s_next).
      { rewrite <- (take_drop (S j) l) at 1.
        rewrite commit_loop_app, Hstep. simpl.
        rewrite length_take. apply lookup_lt_Some in Hl.
        by replace (k + S j `min` length l) with (S i) by lia. }
      rewrite Hrun.
      assert (Htrace : trace (checkpoint w
                 (set_status "completed"
                    (commit_loop w name (S i) (drop (S j) l) q s_next).1)
                 (commit_loop w name (S i) (drop (S j) l) q s_next).2)
              = trace s ++ [EvCommand git_status_cmd] ++ earlier
                ++ [EvSaveProgress p; EvProcessCommit i (sha1 c)] ++ mid
                ++ [EvSaveProgress q] ++ later
                ++ [EvSaveProgress
                      (set_status "completed"
                         (commit_loop w name (S i) (drop (S j) l) q s_next).1)]).
      { simpl. rewrite Hlater. simpl. rewrite Hmid. simpl. rewrite Hearlier.
        simpl. by rewrite <- !app_assoc. }
      destruct (command_outcome w (trace s) git_status_cmd) as [| |msg];
        [exact Htrace | exact Htrace | by destruct (Hno msg)].
    + by apply checkpoint_persists.
    + by apply checkpoint_persists.
Qed.

Lemma C3_resumable_cursor_witness :
  (exists evs,
     trace (run_project covering_world "proj" [small_commit; second_commit]
              midway_state).2
     = trace midway_state ++ evs
     /\ driver_view evs = [Saved 1; Processed 1; Saved 1; Saved 1])
  /\ (exists p s_call b s_done,
        process_single_commit covering_world second_commit "proj" s_call
        = (b, s_done)
        /\ progress_store s_call = ProgressStored p
        /\ current_index p = 1).
Proof.
  destruct (C3_resumable_cursor covering_world "proj" [small_commit; second_commit]
              midway_state) as (_ & Hrun & Hround).
  split.
  - destruct Hrun as (evs & Htr & [Hview|[[msg Hraise] _]] & _).
    + exists evs. split; [exact Htr | exact Hview].
    + discriminate Hraise.
  - destruct (Hround 1 second_commit)
      as (p_i & s_i & b & s_done & earlier & mid & later & Hiter).
    + apply le_n.
    + reflexivity.
    + intros msg. discriminate.
    + cbv zeta in Hiter.
      destruct Hiter as (_ & Hcall & _ & _ & _ & _ & _ & Hp & _ & _ & Hstore & _).
      eexists _, _, b, s_done. split; [exact Hcall|].
      split; [apply Hstore; reflexivity | exact Hp].
Defined.

(** C7 (as amended): an exception raised at any point of the verification
    sequence of a commit (one that is not listed as processed and passes the
    admission filter) is caught within the call: the call returns [False],
    and its last step hands the accumulator one record of the commit with
    status error, both pair lists empty, no [reason] and the exception text
    as its [error_message]; when the writes of the results file succeed that
    record is the one the file holds for the commit.  The driver then counts
    the commit as processed and not successful, saves its progress and goes
    on with the next commit, and it calls the verifier for every commit that
    is left, in order. *)
Theorem C7_exception_caught (w : World) (c : CommitInfo) (name : string)
  (s s' : State) (msg : string) :
  is_commit_processed (progress_store s) name (sha1 c) = false ->
  rejected c = false ->
  verify w c s = (Raise msg, s') ->
  let r := {| commit := sha1 c; new_pairs := []; old_pairs := [];
              status := "error"; reason := None; error_message := Some msg |} in
  exists final,
    process_single_commit w c name s = (false, final)
    /\ trace final = trace s' ++ [EvAppendResult r]
    /\ progress_store final = progress_store s'
    /\ results final
       = (append_result (can_create w (trace s')) (can_write w (trace s'))
            (results s') r).2
    /\ (can_create w (trace s') = Written -> can_write w (trace s') = Written ->
        exists i, list_find (fun e => commit e = sha1 c) (stored (results final))
                  = Some (i, r))
    /\ appended (trace final) = appended (trace s) ++ [r]
    /\ (forall idx rest progress s0,
          s = log (EvProcessCommit idx (sha1 c))
                (checkpoint w (set_index idx progress) s0) ->
          let counted := record_outcome false (sha1 c) (set_index idx progress) in
          commit_loop w name idx (c :: rest) progress s0
          = commit_loop w name (S idx) rest counted (checkpoint w counted final)
          /\ successful_commits counted = successful_commits progress
          /\ processed_commits counted = processed_commits progress ++ [sha1 c]
          /\ exists evs,
               trace (commit_loop w name idx (c :: rest) progress s0).2
               = trace (checkpoint w counted final) ++ evs
               /\ processed_indices (driver_view evs) = seq (S idx) (length rest)).
Proof.
  intros Hp Hr Hraise r.
  assert (Hrun : process_single_commit w c name s = (false, (save_result w r s').2)).
  { unfold process_single_commit. by rewrite Hp, Hr, Hraise. }
  destruct (save_result_effect w r s') as (Htr & Hpr & Hres & Hfind).
  exists (save_result w r s').2. split_and!; try done.
  - rewrite Htr, appended_app. f_equal.
    destruct (verify_cases w c s)
      as (evs & Q & [(_ & H)|[(m & H)|(b & r' & H & _)]]);
      rewrite H in Hraise; try discriminate.
    injection Hraise as _ <-. simpl.
    by rewrite appended_app, (appended_external evs Q), app_nil_r.
  - intros idx rest progress s0 Hs counted.
    assert (Hstep : commit_loop w name idx (c :: rest) progress s0
                    = commit_loop w name (S idx) rest counted
                        (checkpoint w counted (save_result w r s').2)).
    { simpl. by rewrite <- Hs, Hrun. }
    split_and!; [done..|]. rewrite Hstep.
    apply commit_loop_attempts_all.
Qed.

Lemma C7_exception_caught_witness :
  exists final,
    process_single_commit broken_world small_commit "proj" initial_state
    = (false, final)
    /\ stored (results final)
       = [ {| commit := "abc123"; new_pairs := []; old_pairs := [];
              status := "error"; reason := None; error_message := Some "boom" |} ].
Proof.
  destruct (C7_exception_caught broken_world small_commit "proj" initial_state
              (log (EvCommand (checkout_cmd "abc123")) initial_state) "boom")
    as (final & Hrun & _ & _ & Hres & _); [reflexivity..|].
  exists final. split; [exact Hrun|]. rewrite Hres. reflexivity.
Defined.

(** C7 (as stated) fails on the record's layout: the record stored for a
    raised exception has no [reason]; the text is its [error_message]. *)
Lemma C7_counterexample :
  exists r,
    stored (results (process_single_commit broken_world small_commit "proj"
                       initial_state).2) = [r]
    /\ status r = "error"
    /\ reason r <> Some "boom"
    /\ error_message r = Some "boom".
Proof.
  exists (error_result "abc123" "boom"). split_and!; try reflexivity. discriminate.
Qed.

(** C10: a commit listed in the persisted [processed_commits] is reported as
    a success without any command, test or store; when the driver's record
    lists it too and the write of the checkpoint before the call does not
    leave a truncated progress file (the verifier reads the file again at the
    call), the driver's round for it then counts one more successful commit
    and lists the identifier once more, whereas after a checkpoint whose
    write truncates the file the verifier finds no commit listed; and a
    project whose only commit failed the new-coverage gate ends a second run
    with that commit listed twice and one successful commit, while its
    results hold no successful record. *)
Theorem C10_skipped_commit_counted_again (w : World) (c : CommitInfo)
  (name : string) (s : State) :
  sha1 c ∈ processed_commits (load_progress (progress_store s) name) ->
  process_single_commit w c name s = (true, s)
  /\ (forall idx rest progress,
        sha1 c ∈ processed_commits progress ->
        can_write w (trace s) <> Truncated ->
        let counted := record_outcome true (sha1 c) (set_index idx progress) in
        exists s1,
          commit_loop w name idx (c :: rest) progress s
          = commit_loop w name (S idx) rest counted s1
          /\ trace s1 = trace s ++ [EvSaveProgress (set_index idx progress);
                                    EvProcessCommit idx (sha1 c);
                                    EvSaveProgress counted]
          /\ results s1 = results s
          /\ successful_commits counted = successful_commits progress + 1
          /\ processed_commits counted = processed_commits progress ++ [sha1 c])
  /\ (forall idx progress,
        can_write w (trace s) = Truncated ->
        is_commit_processed
          (progress_store (log (EvProcessCommit idx (sha1 c))
                             (checkpoint w (set_index idx progress) s)))
          name (sha1 c) = false)
  /\ (let first := (run_project calm_world "proj" [small_commit] initial_state).2 in
      let second := (run_project calm_world "proj" [small_commit] first).2 in
      exists p1 p2,
        progress_store first = ProgressStored p1
        /\ processed_commits p1 = ["abc123"] /\ successful_commits p1 = 0
        /\ progress_store second = ProgressStored p2
        /\ processed_commits p2 = ["abc123"; "abc123"] /\ successful_commits p2 = 1
        /\ stored (results second) = [failed_result "abc123" "new_coverage_less_than_2"]).
Proof.
  intros Hin. split_and!.
  - unfold process_single_commit.
    by rewrite (proj2 (is_commit_processed_spec _ _ _) Hin).
  - intros idx rest progress Hmem Hwrite counted.
    set (p1 := set_index idx progress).
    set (s0 := log (EvProcessCommit idx (sha1 c)) (checkpoint w p1 s)).
    assert (Hskip : process_single_commit w c name s0 = (true, s0)).
    { unfold process_single_commit.
      assert (Hp : is_commit_processed (progress_store s0) name (sha1 c) = true).
      { apply is_commit_processed_spec. unfold s0, checkpoint, save_progress. simpl.
        by destruct (can_write w (trace s)). }
      by rewrite Hp. }
    exists (checkpoint w counted s0). split_and!; try done.
    + simpl. fold p1. fold s0. by rewrite Hskip.
    + simpl. by rewrite <- !app_assoc.
  - intros idx progress Htrunc.
    unfold is_commit_processed, checkpoint, save_progress. simpl.
    by rewrite Htrunc.
  - eexists _, _. split_and!; reflexivity.
Qed.

Lemma C10_skipped_commit_counted_again_witness :
  process_single_commit calm_world small_commit "proj" resumed_state
  = (true, resumed_state).
Proof.
  apply (C10_skipped_commit_counted_again calm_world small_commit "proj" resumed_state).
  simpl. apply list_elem_of_here.
Defined.

(** ** Records the driver saves *)

Lemma saved_records_app tr1 tr2 :
  saved_records (tr1 ++ tr2) = saved_records tr1 ++ saved_records tr2.
Proof. apply omap_app. Qed.

Lemma saved_records_quiet evs :
  driver_view evs = [] -> saved_records evs = [].
Proof.
  induction evs as [|ev evs IH]; [done|].
  destruct ev; try discriminate; exact IH.
Qed.

Section SavedStatus.
Variable w : World.

Lemma commit_loop_saved_status name todo : forall idx progress s,
  exists evs,
    trace (commit_loop w name idx todo progress s).2 = trace s ++ evs
    /\ Forall (fun p => run_status p = run_status progress) (saved_records evs)
    /\ run_status (commit_loop w name idx todo progress s).1 = run_status progress.
Proof.
  induction todo as [|c rest IH]; intros idx progress s.
  - exists []. simpl. rewrite app_nil_r. by split_and!.
  - simpl.
    set (p1 := set_index idx progress).
    set (s1 := log (EvProcessCommit idx (sha1 c)) (checkpoint w p1 s)).
    destruct (process_single_commit_frame w c name s1) as (e0 & Htr & Hv & _ & _).
    destruct (process_single_commit w c name s1) as [success s2]. simpl in Htr.
    set (p2 := record_outcome success (sha1 c) p1).
    destruct (IH (S idx) p2 (checkpoint w p2 s2)) as (e1 & Htr1 & Hs1 & Hst1).
    exists ([EvSaveProgress p1; EvProcessCommit idx (sha1 c)] ++ e0
            ++ [EvSaveProgress p2] ++ e1).
    split_and!.
    + rewrite Htr1. simpl. rewrite Htr. simpl. by rewrite <- !app_assoc.
    + rewrite !saved_records_app, (saved_records_quiet e0 Hv). simpl.
      constructor; [done|]. constructor; [done|]. exact Hs1.
    + by rewrite Hst1.
Qed.

(** No record the driver saves has the status "not_started": a record loaded
    with that status is replaced by a running one before the first save. *)
Lemma run_project_saved_status name commits_data s :
  exists evs,
    trace (run_project w name commits_data s).2 = trace s ++ evs
    /\ Forall (fun p => run_status p <> "not_started") (saved_records evs).
Proof.
  unfold run_project.
  set (loaded := load_progress (progress_store s) name).
  set (progress := if String.eqb (run_status loaded) "not_started"
                   then fresh_progress name "running" (length commits_data)
                   else loaded).
  assert (Hst : run_status progress <> "not_started").
  { unfold progress. destruct (String.eqb _ _) eqn:E; [discriminate|].
    by apply String.eqb_neq. }
  unfold run_command. set (s1 := log (EvCommand git_status_cmd) s).
  assert (Hloop : exists evs,
    trace (let '(progress0, s0) :=
             commit_loop w name (current_index progress)
               (drop (current_index progress) commits_data) progress s1 in
           (Ok (), checkpoint w (set_status "completed" progress0) s0)).2
    = trace s ++ evs
    /\ Forall (fun p => run_status p <> "not_started") (saved_records evs)).
  { destruct (commit_loop_saved_status name
                (drop (current_index progress) commits_data)
                (current_index progress) progress s1) as (evs & Htr & Hs & _).
    destruct (commit_loop _ _ _ _ _ _) as [progress' s']. simpl in *.
    exists ([EvCommand git_status_cmd] ++ evs
            ++ [EvSaveProgress (set_status "completed" progress')]).
    split; [rewrite Htr; simpl; by rewrite <- !app_assoc|].
    rewrite !saved_records_app. simpl. apply Forall_app. split.
    - eapply Forall_impl; [exact Hs|]. simpl. intros p ->. exact Hst.
    - by repeat constructor. }
  destruct (command_outcome w (trace s) git_status_cmd) as [| |msg];
    [exact Hloop | exact Hloop |].
  exists [EvCommand git_status_cmd]. split; [done | constructor].
Qed.

End SavedStatus.

(* ================================================================== *)
(** * Further properties of the code *)
(* ================================================================== *)

(** ** String primitives *)

Lemma contains_app ch a b :
  PyStr.contains ch (a +:+ b) = PyStr.contains ch a || PyStr.contains ch b.
Proof.
  induction a as [|c a IH]; simpl; [done|]. by rewrite IH, orb_assoc.
Qed.

Lemma split_app_sep sep a b :
  PyStr.contains sep a = false ->
  PyStr.split sep (a +:+ String sep b) = a :: PyStr.split sep b.
Proof.
  induction a as [|c a IH]; simpl.
  - intros _. by rewrite Ascii.eqb_refl.
  - intros [Hc Ha]%orb_false_iff. rewrite Hc. by rewrite (IH Ha).
Qed.

Lemma rfind_contains ch s :
  PyStr.contains ch s = true -> exists i, PyStr.rfind ch s = Some i.
Proof.
  induction s as [|c s IH]; simpl; [discriminate|].
  destruct (PyStr.rfind ch s) as [i|]; [eauto|].
  destruct (Ascii.eqb c ch); simpl; [eauto|].
  intros H. destruct (IH H) as [i Hi]. discriminate.
Qed.

Lemma rfind_absent ch s :
  PyStr.contains ch s = false -> PyStr.rfind ch s = None.
Proof.
  induction s as [|c s IH]; simpl; [done|].
  intros [Hc Hs]%orb_false_iff. by rewrite (IH Hs), Hc.
Qed.

Lemma rfind_app_last ch a b :
  PyStr.contains ch b = false ->
  PyStr.rfind ch (a +:+ String ch b) = Some (String.length a).
Proof.
  intros Hb. induction a as [|c a IH]; simpl.
  - by rewrite (rfind_absent _ _ Hb), Ascii.eqb_refl.
  - by rewrite IH.
Qed.

Lemma rstrip_by_app_one p s c :
  p c = true -> PyStr.rstrip_by p (s +:+ String c "") = PyStr.rstrip_by p s.
Proof.
  intros Hc. induction s as [|a s IH]; simpl; [by rewrite Hc|]. by rewrite IH.
Qed.

Lemma rstrip_by_all p t : all_chars p t = true -> PyStr.rstrip_by p t = "".
Proof.
  induction t as [|c t IH]; simpl; [done|].
  intros [Hc Ht]%andb_true_iff. by rewrite (IH Ht), Hc.
Qed.

Lemma rstrip_by_app_all p s t :
  all_chars p t = true -> PyStr.rstrip_by p (s +:+ t) = PyStr.rstrip_by p s.
Proof.
  intros Ht. induction s as [|a s IH]; simpl; [|by rewrite IH].
  by apply rstrip_by_all.
Qed.

Lemma rstrip_by_idem p s :
  PyStr.rstrip_by p (PyStr.rstrip_by p s) = PyStr.rstrip_by p s.
Proof.
  induction s as [|c s IH]; simpl; [done|].
  destruct (PyStr.rstrip_by p s) as [|d r] eqn:Hr.
  - destruct (p c) eqn:Hc; simpl; [done|]. by rewrite Hc.
  - simpl in *. by rewrite IH.
Qed.

Lemma lstrip_by_head p s :
  PyStr.lstrip_by p s = ""
  \/ exists c r, PyStr.lstrip_by p s = String c r /\ p c = false.
Proof.
  induction s as [|c s IH]; simpl; [by left|].
  destruct (p c) eqn:Hc; [done|]. right. eauto.
Qed.

Lemma lstrip_by_fixed p c r :
  p c = false -> PyStr.lstrip_by p (PyStr.rstrip_by p (String c r))
                 = PyStr.rstrip_by p (String c r).
Proof.
  intros Hc. simpl. destruct (PyStr.rstrip_by p r); rewrite ?Hc; simpl; by rewrite Hc.
Qed.

Lemma lstrip_by_app p s t :
  PyStr.lstrip_by p (s +:+ t)
  = if all_chars p s then PyStr.lstrip_by p t else PyStr.lstrip_by p s +:+ t.
Proof.
  induction s as [|c s IH]; simpl; [done|].
  destruct (p c); simpl; [exact IH | done].
Qed.

Lemma lstrip_by_all p s : all_chars p s = true -> PyStr.lstrip_by p s = "".
Proof.
  induction s as [|c s IH]; simpl; [done|].
  intros [Hc Hs]%andb_true_iff. rewrite Hc. by apply IH.
Qed.

Lemma append_cons c s t : String c s +:+ t = String c (s +:+ t).
Proof. reflexivity. Qed.

Lemma append_empty_r s : s +:+ "" = s.
Proof. induction s as [|c s IH]; [done|]. by rewrite append_cons, IH. Qed.

Lemma append_assoc a b c : (a +:+ b) +:+ c = a +:+ b +:+ c.
Proof. induction a as [|x a IH]; [done|]. by rewrite !append_cons, IH. Qed.

Lemma substring_prefix s t : String.substring 0 (String.length s) (s +:+ t) = s.
Proof.
  induction s as [|c s IH]; [by destruct t|].
  rewrite append_cons. simpl. by rewrite IH.
Qed.

Lemma substring_suffix a ch b :
  String.substring (S (String.length a))
    (String.length (a +:+ String ch b) - S (String.length a)) (a +:+ String ch b)
  = b.
Proof.
  induction a as [|c a IH]; simpl.
  - rewrite Nat.sub_0_r. rewrite <- (append_empty_r b) at 2.
    apply substring_prefix.
  - exact IH.
Qed.

Lemma strip_idem s : PyStr.strip (PyStr.strip s) = PyStr.strip s.
Proof.
  unfold PyStr.strip.
  destruct (lstrip_by_head PyStr.is_space s) as [->|(c & r & -> & Hc)]; [done|].
  by rewrite lstrip_by_fixed, rstrip_by_idem.
Qed.

(** [strip] removes any run of white space on either side. *)
Lemma strip_padding left s right :
  all_chars PyStr.is_space left = true ->
  all_chars PyStr.is_space right = true ->
  PyStr.strip (left +:+ s +:+ right) = PyStr.strip s.
Proof.
  intros Hl Hr. unfold PyStr.strip.
  rewrite lstrip_by_app, Hl, lstrip_by_app.
  destruct (all_chars PyStr.is_space s) eqn:Hs.
  - by rewrite (lstrip_by_all _ _ Hr), (lstrip_by_all _ _ Hs).
  - by apply rstrip_by_app_all.
Qed.

(** ** Method identifiers and descriptors, continued *)

Lemma split_head sep s :
  exists rest, PyStr.split sep s = default "" (head (PyStr.split sep s)) :: rest.
Proof.
  destruct (PyStr.split sep s) as [|h t] eqn:H; [by apply split_not_nil in H|].
  by exists t.
Qed.

(** [parse_method_id] has three outcomes: it raises IndexError exactly on the
    identifiers without an opening parenthesis, and raises nothing else; it
    returns the triple of [None]s exactly on the identifiers with a
    parenthesis whose part before the first parenthesis has no dot. *)
Theorem parse_method_id_outcomes (method_id : string) :
  (parse_method_id method_id = Raise IndexError <-> has_paren method_id = false)
  /\ (forall msg, parse_method_id method_id = Raise msg -> msg = IndexError)
  /\ (parse_method_id method_id = Ok None
      <-> has_paren method_id = true
          /\ PyStr.contains "." (method_part_of method_id) = false).
Proof.
  unfold method_part_of.
  destruct (has_paren method_id) eqn:Hp.
  - destruct (split_contains _ _ Hp) as (a & b & rest & Hs).
    unfold parse_method_id. rewrite Hs. simpl.
    destruct (PyStr.contains "." a) eqn:Ha.
    + destruct (rfind_contains _ _ Ha) as [i ->].
      split_and!; [split; discriminate | discriminate |].
      split; [discriminate | by intros [_ ?]].
    + split_and!; [split; discriminate | discriminate | done].
  - rewrite (parse_method_id_no_paren _ Hp).
    split_and!; [done | by intros msg [= <-] |].
    split; [discriminate | by intros [? _]].
Qed.

(** Parsing inverts the way identifiers are written: class, dot, method,
    parameters in parentheses. *)
Theorem parse_method_id_roundtrip (class_name method_name params : string) :
  PyStr.contains "(" class_name = false ->
  PyStr.contains "(" method_name = false ->
  PyStr.contains "." method_name = false ->
  PyStr.contains "(" params = false ->
  PyStr.rstrip_char ")" params = params ->
  parse_method_id (class_name +:+ "." +:+ method_name +:+ "(" +:+ params +:+ ")")
  = Ok (Some (class_name, method_name, params)).
Proof.
  intros Hc Hm Hdot Hp Hstrip. unfold parse_method_id.
  assert (Hpart : PyStr.contains "(" (class_name +:+ "." +:+ method_name) = false).
  { by rewrite !contains_app, Hc, Hm. }
  assert (Hsplit : PyStr.split "(" (class_name +:+ "." +:+ method_name +:+ "("
                                      +:+ params +:+ ")")
                   = [class_name +:+ "." +:+ method_name; params +:+ ")"]).
  { replace (class_name +:+ "." +:+ method_name +:+ "(" +:+ params +:+ ")")
      with ((class_name +:+ "." +:+ method_name) +:+ String "(" (params +:+ ")"))
      by (by rewrite !append_assoc).
    rewrite (split_app_sep _ _ _ Hpart). f_equal. apply split_no_sep.
    by rewrite contains_app, Hp. }
  rewrite Hsplit.
  assert (Hdots : PyStr.contains "." (class_name +:+ "." +:+ method_name) = true).
  { rewrite contains_app. simpl. by rewrite orb_true_r. }
  rewrite Hdots.
  change ("." +:+ method_name) with (String "." method_name).
  rewrite (rfind_app_last _ _ _ Hdot).
  unfold PyStr.slice_to, PyStr.slice_from.
  rewrite substring_prefix, substring_suffix.
  unfold PyStr.rstrip_char in *.
  by rewrite rstrip_by_app_one, Hstrip.
Qed.

Lemma parse_method_id_roundtrip_witness :
  parse_method_id ("com.example.Foo" +:+ "." +:+ "bar" +:+ "(" +:+ "int,long" +:+ ")")
  = Ok (Some ("com.example.Foo", "bar", "int,long")).
Proof.
  apply (parse_method_id_roundtrip "com.example.Foo" "bar" "int,long"); reflexivity.
Defined.

(** White space around a parameter type does not change its descriptor. *)
Theorem descriptor_ignores_padding (left java_type right : string) :
  all_chars PyStr.is_space left = true ->
  all_chars PyStr.is_space right = true ->
  java_type_to_descriptor (left +:+ java_type +:+ right)
  = java_type_to_descriptor java_type.
Proof.
  intros Hl Hr. unfold java_type_to_descriptor. by rewrite strip_padding.
Qed.

Lemma descriptor_ignores_padding_witness :
  java_type_to_descriptor ("  " +:+ "java.lang.String" +:+ " ")
  = java_type_to_descriptor "java.lang.String".
Proof.
  apply (descriptor_ignores_padding "  " "java.lang.String" " "); reflexivity.
Defined.

Lemma split_app sep a b :
  PyStr.split sep (a +:+ String sep b) = PyStr.split sep a ++ PyStr.split sep b.
Proof.
  induction a as [|c a IH]; [simpl; by rewrite Ascii.eqb_refl|].
  rewrite append_cons. simpl. rewrite IH.
  destruct (Ascii.eqb c sep); [done|].
  destruct (PyStr.split sep a) as [|h t] eqn:Hs; [by apply split_not_nil in Hs|done].
Qed.

Lemma join_app l1 l2 : PyStr.join (l1 ++ l2) = PyStr.join l1 +:+ PyStr.join l2.
Proof.
  unfold PyStr.join. induction l1 as [|x l1 IH]; [done|].
  destruct l1 as [|y l1].
  - simpl. destruct l2; simpl; [by rewrite append_empty_r | done].
  - change (String.concat "" ((x :: y :: l1) ++ l2))
      with (x +:+ "" +:+ String.concat "" ((y :: l1) ++ l2)).
    change (String.concat "" (x :: y :: l1))
      with (x +:+ "" +:+ String.concat "" (y :: l1)).
    rewrite IH. by rewrite !append_assoc.
Qed.

(** The prefix of a parameter string is built parameter by parameter: the
    type codes of two comma-joined parameter strings are the codes of the
    first followed by the codes of the second, and the prefix of a non-empty
    parameter string is its type codes in parentheses. *)
Theorem descriptor_prefix_composes (params more : string) :
  descriptor_body (params +:+ "," +:+ more)
  = descriptor_body params +:+ descriptor_body more
  /\ params_to_desc_prefix (params +:+ "," +:+ more)
     = "(" +:+ descriptor_body params +:+ descriptor_body more +:+ ")".
Proof.
  assert (Hbody : descriptor_body (params +:+ "," +:+ more)
                  = descriptor_body params +:+ descriptor_body more).
  { unfold descriptor_body.
    change ("," +:+ more) with (String "," more).
    by rewrite split_app, !map_app, join_app. }
  split; [done|].
  unfold params_to_desc_prefix.
  assert (Hne : PyStr.falsy (params +:+ "," +:+ more) = false) by by destruct params.
  rewrite Hne. fold (descriptor_body (params +:+ "," +:+ more)).
  by rewrite Hbody, append_assoc.
Qed.

(** ** Coverage interpreter, continued *)

Lemma coverage_loop_app root l1 l2 acc :
  coverage_loop root (l1 ++ l2) acc
  = rbind (coverage_loop root l1 acc) (coverage_loop root l2).
Proof.
  revert acc. induction l1 as [|x l1 IH]; intros acc; simpl; [done|].
  destruct (check_candidate root x) as [hit|msg]; simpl; [apply IH | done].
Qed.

Lemma coverage_loop_filter root l acc :
  numeric_report root = true -> forallb has_paren l = true ->
  coverage_loop root l acc = Ok (acc ++ List.filter (candidate_hit root) l).
Proof.
  intros Hr. revert acc. induction l as [|x l IH]; intros acc Hp; simpl.
  - by rewrite app_nil_r.
  - apply andb_true_iff in Hp as [Hx Hl].
    destruct (check_candidate_total root x Hr Hx) as [b Hb].
    unfold candidate_hit at 1. rewrite Hb. simpl. rewrite (IH _ Hl).
    destruct b; [by rewrite <- app_assoc | done].
Qed.

(** The answer of the interpreter is a sublist of the query, for every
    report file and every query: no identifier is invented, repeated or
    reordered. *)
Theorem coverage_answer_sublist (file : jacoco_file) (focal_methods : list string) :
  check_jacoco_coverage file focal_methods `sublist_of` focal_methods.
Proof.
  destruct file as [| |root]; simpl; try apply sublist_nil_l.
  destruct (coverage_loop root focal_methods []) as [covered|] eqn:Hloop;
    [|apply sublist_nil_l].
  destruct (coverage_loop_sublist _ _ _ _ Hloop) as (found & -> & Hsub).
  exact Hsub.
Qed.

(** One identifier without an opening parenthesis anywhere in the query
    empties the answer, whatever the report holds. *)
Theorem coverage_emptied_by_bare_identifier (file : jacoco_file)
  (focal_methods : list string) :
  forallb has_paren focal_methods = false ->
  check_jacoco_coverage file focal_methods = [].
Proof.
  intros Hbare. destruct file as [| |root]; simpl; [done..|].
  destruct (coverage_loop_raises root focal_methods [] Hbare) as [msg Hraise].
  by rewrite Hraise.
Qed.

Lemma coverage_emptied_by_bare_identifier_witness :
  check_jacoco_coverage (ParsedReport two_method_report)
    ["com.example.Foo.bar(int)"; "baz"; "com.example.Foo.baz()"] = [].
Proof.
  apply (coverage_emptied_by_bare_identifier (ParsedReport two_method_report)
           ["com.example.Foo.bar(int)"; "baz"; "com.example.Foo.baz()"]).
  reflexivity.
Defined.

(** On a numeric report and a query whose identifiers all have a
    parenthesis, every candidate is decided on its own: the answer is the
    query filtered by the verdict on each candidate, so the answer to two
    queries put together is the two answers put together. *)
Theorem coverage_decided_per_candidate (root : Report) (first second : list string) :
  numeric_report root = true ->
  forallb has_paren first = true ->
  forallb has_paren second = true ->
  check_jacoco_coverage (ParsedReport root) first
  = List.filter (candidate_hit root) first
  /\ check_jacoco_coverage (ParsedReport root) (first ++ second)
     = check_jacoco_coverage (ParsedReport root) first
       ++ check_jacoco_coverage (ParsedReport root) second.
Proof.
  intros Hr H1 H2.
  assert (H12 : forallb has_paren (first ++ second) = true).
  { rewrite forallb_app. by rewrite H1, H2. }
  simpl. rewrite !coverage_loop_filter by done. simpl.
  split; [done|]. apply List.filter_app.
Qed.

Lemma coverage_decided_per_candidate_witness :
  check_jacoco_coverage (ParsedReport two_method_report)
    (["com.example.Foo.bar(int)"] ++ ["com.example.Foo.qux()"; "com.example.Foo.baz()"])
  = check_jacoco_coverage (ParsedReport two_method_report) ["com.example.Foo.bar(int)"]
    ++ check_jacoco_coverage (ParsedReport two_method_report)
         ["com.example.Foo.qux()"; "com.example.Foo.baz()"].
Proof.
  apply (coverage_decided_per_candidate two_method_report
           ["com.example.Foo.bar(int)"]
           ["com.example.Foo.qux()"; "com.example.Foo.baz()"]); reflexivity.
Defined.

(** On a report laid out as JaCoCo lays it out and a query whose identifiers
    all have an opening parenthesis, a candidate is reported exactly when it
    is in the query and the first class entry of its internal name has a
    method entry of its name whose descriptor starts with the matching prefix
    and whose INSTRUCTION counter reports a covered count greater than 0. *)
Theorem coverage_matches_design (root : Report) (focal_methods : list string)
  (method_id : string) :
  jacoco_shaped root = true ->
  forallb has_paren focal_methods = true ->
  method_id ∈ check_jacoco_coverage (ParsedReport root) focal_methods
  <-> method_id ∈ focal_methods /\ spec_covered root method_id.
Proof.
  intros Hshape Hp. simpl.
  destruct (coverage_loop_spec root focal_methods []
              (jacoco_shaped_numeric root Hshape) Hp) as (cov & -> & _ & Hin).
  simpl. rewrite Hin. by rewrite (jacoco_shaped_covered root method_id Hshape).
Qed.

Lemma coverage_matches_design_witness :
  spec_covered (foo_bar_report [instruction 5; line_counter 2])
    "com.example.Foo.bar(int)"
  /\ "com.example.Foo.bar(int)"
       ∉ check_jacoco_coverage
           (ParsedReport (foo_bar_report [instruction 0; line_counter 2]))
           ["com.example.Foo.bar(int)"].
Proof.
  split.
  - apply (coverage_matches_design (foo_bar_report [instruction 5; line_counter 2])
             ["com.example.Foo.bar(int)"] "com.example.Foo.bar(int)");
      [reflexivity | reflexivity |].
    apply list_elem_of_here.
  - apply not_elem_of_nil.
Defined.

(** An identifier with a parenthesis but no class part is passed over: taking
    it out of the query changes nothing, for every report file and whatever
    the other identifiers are. *)
Theorem classless_identifier_is_inert (file : jacoco_file)
  (before after : list string) (method_part params : string) :
  PyStr.contains "(" method_part = false ->
  PyStr.contains "." method_part = false ->
  check_jacoco_coverage file (before ++ (method_part +:+ "(" +:+ params) :: after)
  = check_jacoco_coverage file (before ++ after).
Proof.
  intros Hp Hd. destruct file as [| |root]; simpl; [done..|].
  rewrite !coverage_loop_app.
  destruct (coverage_loop root before []) as [acc|msg]; simpl; [|done].
  by rewrite (classless_identifier_skipped root _ params Hp Hd).
Qed.

Lemma classless_identifier_is_inert_witness :
  check_jacoco_coverage (ParsedReport two_method_report)
    (["com.example.Foo.bar(int)"] ++ ("helper" +:+ "(" +:+ "int)")
       :: ["com.example.Foo.baz()"])
  = check_jacoco_coverage (ParsedReport two_method_report)
      (["com.example.Foo.bar(int)"] ++ ["com.example.Foo.baz()"]).
Proof.
  apply (classless_identifier_is_inert (ParsedReport two_method_report)
           ["com.example.Foo.bar(int)"] ["com.example.Foo.baz()"] "helper" "int)");
    reflexivity.
Defined.

(** ** Result accumulator, continued *)

Lemma upsert_commits l r :
  commit <$> upsert l r
  = (commit <$> l) ++ (if bool_decide (commit r ∈ commit <$> l) then [] else [commit r]).
Proof.
  unfold upsert. destruct (list_find _ l) as [[i x]|] eqn:H.
  - apply list_find_Some in H as (Hi & Hx & _). simpl in Hx.
    rewrite list_fmap_insert, <- Hx, list_insert_id
      by (by rewrite list_lookup_fmap, Hi).
    rewrite bool_decide_eq_true_2, app_nil_r; [done|].
    apply list_elem_of_fmap. exists x. split; [done|].
    by eapply list_elem_of_lookup_2.
  - apply list_find_None in H. rewrite fmap_app. f_equal.
    rewrite bool_decide_eq_false_2; [done|].
    intros (e & He & Hin)%list_elem_of_fmap.
    by apply (proj1 (Forall_forall _ l) H e).
Qed.

Lemma upsert_other_commits l r c :
  c <> commit r ->
  filter (fun e => commit e = c) (upsert l r) = filter (fun e => commit e = c) l.
Proof.
  intros Hc. unfold upsert. destruct (list_find _ l) as [[i x]|] eqn:H.
  - apply list_find_Some in H as (Hi & Hx & _). simpl in Hx.
    rewrite insert_take_drop by (by eapply lookup_lt_Some).
    rewrite <- (take_drop_middle l i x Hi) at 3.
    rewrite !filter_app, !filter_cons.
    rewrite !decide_False by congruence. done.
  - rewrite filter_app, filter_cons, decide_False by congruence.
    by rewrite filter_nil, app_nil_r.
Qed.

(** Whatever the file holds, a call of [append_result] whose final write is
    done or refused keeps the commit identifiers of the file in place and in
    order, adds at most the identifier of the new record at the end, and
    leaves the records of every other commit exactly as they were; a final
    write that fails after the file was opened leaves no record at all. *)
Theorem append_result_keeps_other_commits (create_ok write_ok : write_outcome)
  (file : results_file) (r : VerificationResult) :
  (write_ok <> Truncated ->
   (commit <$> stored file)
     `prefix_of` (commit <$> stored (append_result create_ok write_ok file r).2)
   /\ length (stored (append_result create_ok write_ok file r).2)
      <= S (length (stored file))
   /\ (forall c, c <> commit r ->
         filter (fun e => commit e = c)
           (stored (append_result create_ok write_ok file r).2)
         = filter (fun e => commit e = c) (stored file)))
  /\ (write_ok = Truncated ->
      stored (append_result create_ok write_ok file r).2 = []).
Proof.
  split; [intros Hwrite | intros ->; by destruct file, create_ok].
  assert (Hup : forall l,
            (commit <$> l) `prefix_of` (commit <$> upsert l r)
            /\ length (upsert l r) <= S (length l)).
  { intros l. pose proof (upsert_commits l r) as H. split.
    - rewrite H. by eexists.
    - apply (f_equal length) in H. rewrite length_app, !length_fmap in H.
      case_bool_decide; simpl in H; lia. }
  unfold append_result.
  destruct file as [| |l]; simpl.
  - destruct create_ok; simpl; [|by split_and!; [|lia|]..].
    destruct write_ok; simpl; [|by split_and!; [|lia|]..].
    split_and!; [apply prefix_nil | lia |].
    intros c Hc. by rewrite (upsert_other_commits [] r c Hc).
  - destruct write_ok; simpl; [|by split_and!; [|lia|]..].
    split_and!; [apply prefix_nil | lia |].
    intros c Hc. by rewrite (upsert_other_commits [] r c Hc).
  - destruct write_ok; simpl; [|by split_and!; [|lia|] | done].
    destruct (Hup l) as [? ?]. split_and!; [done..|].
    intros c Hc. by apply upsert_other_commits.
Qed.

(** After a call of [append_result] whose writes succeed, the first record of
    the commit in the file is the record just handed over, whatever the file
    held before. *)
Theorem append_result_then_find (file : results_file) (r : VerificationResult) :
  exists records i,
    append_result Written Written file r = (true, ResultsStored records)
    /\ list_find (fun e => commit e = commit r) records = Some (i, r).
Proof.
  exists (upsert (stored file) r).
  destruct (upsert_find (stored file) r) as (i & Hfind & _).
  exists i. split; [by destruct file | done].
Qed.

(** ** Commit verifier, continued *)

Section VerifierMore.
Variable w : World.

(** What one call of the verifier can touch: it never writes the progress
    file; it adds working-directory events only, optionally followed by one
    record of the commit handed to the accumulator as the very last step. *)
Theorem verifier_footprint (c : CommitInfo) (name : string) (s : State) :
  exists evs,
    trace (process_single_commit w c name s).2 = trace s ++ evs
    /\ progress_store (process_single_commit w c name s).2 = progress_store s
    /\ ((Forall (fun ev => is_external ev = true) evs
         /\ results (process_single_commit w c name s).2 = results s)
        \/ (exists pre r,
              evs = pre ++ [EvAppendResult r]
              /\ Forall (fun ev => is_external ev = true) pre
              /\ commit r = sha1 c
              /\ results (process_single_commit w c name s).2
                 = (append_result (can_create w (trace s ++ pre))
                      (can_write w (trace s ++ pre)) (results s) r).2)).
Proof.
  unfold process_single_commit.
  destruct (is_commit_processed _ _ _).
  { exists []. simpl. rewrite app_nil_r. split_and!; [done..|]. by left. }
  destruct (rejected c).
  { exists []. simpl. rewrite app_nil_r. split_and!; [done..|]. by left. }
  destruct (verify_cases w c s) as (evs & Q & [(_ & ->)|[(msg & ->)|(b & r & -> & Hc)]]).
  - exists evs. simpl. split_and!; [done..|]. by left.
  - exists (evs ++ [EvAppendResult (error_result (sha1 c) msg)]). simpl.
    rewrite save_result_trace, save_result_progress, save_result_results. simpl.
    rewrite app_assoc. split_and!; [done..|]. right. by eexists _, _.
  - exists (evs ++ [EvAppendResult r]). simpl.
    rewrite save_result_trace, save_result_progress, save_result_results. simpl.
    rewrite app_assoc. split_and!; [done..|]. right. by eexists _, _.
Qed.

(** When the checkout of the commit itself returns failure, the call ends
    there: it returns [False] after that single command and hands no record
    to the accumulator. *)
Theorem failed_checkout_leaves_no_record (c : CommitInfo) (name : string) (s : State) :
  is_commit_processed (progress_store s) name (sha1 c) = false ->
  rejected c = false ->
  command_outcome w (trace s) (checkout_cmd (sha1 c)) = CmdFail ->
  process_single_commit w c name s
  = (false, log (EvCommand (checkout_cmd (sha1 c))) s).
Proof.
  intros Hp Hr Hck. unfold process_single_commit, verify. rewrite Hp, Hr.
  by rewrite (bind_ok _ _ _ _ _ (run_command_fail w _ _ Hck)).
Qed.

Lemma verify_success_inv c s s' :
  verify w c s = (Ok true, s') ->
  exists s1 s2 s3 s4 observed_new observed_old,
    new_phase w c s1 = (Ok (observed_new, length observed_new), s2)
    /\ old_phase w c s3 = (Ok (observed_old, length observed_old), s4)
    /\ 2 <= length observed_new /\ 2 <= length observed_old
    /\ s' = (save_result w (success_result (sha1 c) observed_new observed_old) s4).2.
Proof.
  unfold verify. intros H.
  apply bind_inv_ok in H as (sw & s1 & _ & H).
  destruct sw; cbn [negb] in H; [|by inversion H].
  apply bind_inv_ok in H as ([np n] & s2 & Hnew & H).
  destruct (new_phase_result w _ _ _ _ _ Hnew) as (-> & _).
  destruct (length np <? 2) eqn:Hn.
  { apply bind_inv_ok in H as (? & ? & _ & H). by inversion H. }
  apply bind_inv_ok in H as (_ & s3 & _ & H).
  apply bind_inv_ok in H as (sw2 & s4 & _ & H).
  destruct sw2; cbn [negb] in H.
  2:{ apply bind_inv_ok in H as (? & ? & _ & H). by inversion H. }
  apply bind_inv_ok in H as ([op m] & s5 & Hold & H).
  destruct (old_phase_result w _ _ _ _ _ Hold) as (-> & _).
  destruct (length op <? 2) eqn:Hm.
  { apply bind_inv_ok in H as (? & ? & _ & H). by inversion H. }
  apply bind_inv_ok in H as (ok & s6 & Hper & H).
  rewrite persist_run in Hper. injection Hper as _ <-.
  unfold ret in H. injection H as <-.
  apply Nat.ltb_ge in Hn, Hm.
  by exists s1, s2, s4, s5, np, op.
Qed.

(** The verifier returns [True] in two cases only: the commit was already
    listed as processed and nothing was done, or its last step handed the
    accumulator a record of this commit with status success, no reason and
    no error message, whose two pair lists each hold at least 2 pairs, every
    pair made of a test and a focal method of the commit's own sets for that
    revision. *)
Theorem success_means_both_gates (c : CommitInfo) (name : string) (s : State) :
  (process_single_commit w c name s).1 = true ->
  (is_commit_processed (progress_store s) name (sha1 c) = true
   /\ (process_single_commit w c name s).2 = s)
  \/ (exists before r,
        (process_single_commit w c name s).2 = (save_result w r before).2
        /\ trace (process_single_commit w c name s).2
           = trace before ++ [EvAppendResult r]
        /\ commit r = sha1 c /\ status r = "success"
        /\ reason r = None /\ error_message r = None
        /\ 2 <= length (new_pairs r) /\ 2 <= length (old_pairs r)
        /\ Forall (fun p => test_method_id p ∈ test_methods_new c
                            /\ focal_method_id p ∈ focal_methods_new c) (new_pairs r)
        /\ Forall (fun p => test_method_id p ∈ test_methods_old c
                            /\ focal_method_id p ∈ focal_methods_old c) (old_pairs r)).
Proof.
  unfold process_single_commit.
  destruct (is_commit_processed _ _ _); [by left|].
  destruct (rejected c); [discriminate|].
  destruct (verify w c s) as [[b|msg] s'] eqn:Hv; simpl; [|discriminate].
  intros ->. right.
  destruct (verify_success_inv _ _ _ Hv)
    as (s1 & s2 & s3 & s4 & np & op & Hnew & Hold & Hn & Hm & ->).
  exists s4, (success_result (sha1 c) np op).
  split_and!; [done | apply save_result_trace | done..| |].
  - by destruct (new_phase_result w _ _ _ _ _ Hnew).
  - by destruct (old_phase_result w _ _ _ _ _ Hold).
Qed.

Lemma test_loop_without_report clean focal_methods tests :
  (forall tr root, jacoco_xml w tr <> ParsedReport root) ->
  forall pairs n s pairs' n' s',
    test_loop w clean focal_methods tests pairs n s = (Ok (pairs', n'), s') ->
    pairs' = pairs /\ n' = n.
Proof.
  intros Hno. induction tests as [|t rest IH]; simpl; intros pairs n s pairs' n' s' H.
  - by injection H as <- <- _.
  - apply bind_inv_ok in H as (_ & s1 & _ & H).
    apply bind_inv_ok in H as (parsed & s2 & _ & H).
    destruct parsed as [[[cls mth] ps]|]; [|by eapply IH].
    destruct (PyStr.falsy cls || PyStr.falsy mth); [by eapply IH|].
    apply bind_inv_ok in H as (_ & s3 & _ & H).
    apply bind_inv_ok in H as (ran & s4 & _ & H).
    destruct ran; [|by eapply IH].
    apply bind_inv_ok in H as (cov & s5 & Hcov & H).
    unfold read_coverage in Hcov. injection Hcov as <- _.
    destruct (jacoco_xml w (trace s4)) as [| |root] eqn:Hj;
      [| |by apply Hno in Hj].
    + simpl in H. rewrite app_nil_r, Nat.add_0_r in H. by eapply IH.
    + simpl in H. rewrite app_nil_r, Nat.add_0_r in H. by eapply IH.
Qed.

(** In a world that never yields a readable coverage report no commit is ever
    verified: the verifier returns [True] only for commits already listed as
    processed. *)
Theorem no_report_no_success (c : CommitInfo) (name : string) (s : State) :
  (forall tr root, jacoco_xml w tr <> ParsedReport root) ->
  (process_single_commit w c name s).1 = true ->
  is_commit_processed (progress_store s) name (sha1 c) = true.
Proof.
  intros Hno. unfold process_single_commit.
  destruct (is_commit_processed _ _ _); [done|].
  destruct (rejected c); [discriminate|].
  destruct (verify w c s) as [[b|msg] s'] eqn:Hv; simpl; [|discriminate].
  intros ->.
  destruct (verify_success_inv _ _ _ Hv)
    as (s1 & s2 & s3 & s4 & np & op & Hnew & _ & Hn & _).
  apply bind_inv_ok in Hnew as (_ & s0 & _ & Hloop).
  destruct (test_loop_without_report _ _ _ Hno _ _ _ _ _ _ Hloop) as [-> _].
  simpl in Hn. lia.
Qed.

Lemma run_command_returns cmd s :
  (forall tr cmd' msg, command_outcome w tr cmd' <> CmdRaise msg) ->
  exists b, run_command w cmd s = (Ok b, log (EvCommand cmd) s).
Proof.
  intros Hno. unfold run_command.
  destruct (command_outcome w (trace s) cmd) as [| |msg] eqn:H; [eauto..|].
  by apply Hno in H.
Qed.

Lemma test_loop_bare_identifier clean focal_methods tests :
  (forall tr cmd msg, command_outcome w tr cmd <> CmdRaise msg) ->
  forallb has_paren tests = false ->
  forall pairs n s, exists s',
    test_loop w clean focal_methods tests pairs n s = (Raise IndexError, s').
Proof.
  intros Hno. induction tests as [|t rest IH]; simpl; [discriminate|].
  intros Hbare pairs n s.
  assert (Hfirst : exists s1,
            (if clean then run_command w mvn_clean else ret true) s = (Ok true, s1)
            \/ (if clean then run_command w mvn_clean else ret true) s = (Ok false, s1)).
  { destruct clean; [|by exists s; left].
    destruct (run_command_returns mvn_clean s Hno) as [[|] ->]; eauto. }
  destruct Hfirst as (s1 & [H1|H1]); rewrite (bind_ok _ _ _ _ _ H1).
  all: destruct (has_paren t) eqn:Hp; simpl in Hbare;
    [|rewrite (parse_method_id_no_paren _ Hp); by eexists].
  all: destruct (parse_method_id_paren _ Hp) as [parsed Hparse];
    rewrite Hparse; unfold lift at 1; unfold bind at 1.
  all: destruct parsed as [[[cls mth] ps]|]; [|by apply IH].
  all: destruct (PyStr.falsy cls || PyStr.falsy mth); [by apply IH|].
  all: assert (Hrm : exists s2, (if clean then rmtree else ret tt) s1 = (Ok tt, s2))
         by (destruct clean; by eexists).
  all: destruct Hrm as (s2 & Hrm); rewrite (bind_ok _ _ _ _ _ Hrm).
  all: destruct (run_command_returns (test_cmd cls mth) s2 Hno) as [ran Hran];
    rewrite (bind_ok _ _ _ _ _ Hran).
  all: destruct ran; [|by apply IH].
  all: unfold bind at 1, read_coverage at 1; by apply IH.
Qed.

(** A test identifier without an opening parenthesis among the tests of the
    new revision turns the whole commit into an error: when no command
    raises and the checkout succeeds, the call stores the error record with
    the IndexError text and returns [False], whatever the other tests
    covered. *)
Theorem bare_test_identifier_is_an_error (c : CommitInfo) (name : string) (s : State) :
  is_commit_processed (progress_store s) name (sha1 c) = false ->
  rejected c = false ->
  (forall tr cmd msg, command_outcome w tr cmd <> CmdRaise msg) ->
  command_outcome w (trace s) (checkout_cmd (sha1 c)) = CmdOk ->
  forallb has_paren (test_methods_new c) = false ->
  exists before,
    process_single_commit w c name s
    = (false, (save_result w (error_result (sha1 c) IndexError) before).2).
Proof.
  intros Hp Hr Hno Hck Hbare. unfold process_single_commit, verify.
  rewrite Hp, Hr.
  rewrite (bind_ok _ _ _ _ _ (run_command_ok w _ _ Hck)). cbn [negb].
  unfold new_phase.
  assert (Hpom : configure_pom (log (EvCommand (checkout_cmd (sha1 c))) s)
                 = (Ok tt, log EvConfigurePom (log (EvCommand (checkout_cmd (sha1 c))) s)))
    by done.
  destruct (test_loop_bare_identifier true (focal_methods_new c) (test_methods_new c)
              Hno Hbare [] 0
              (log EvConfigurePom (log (EvCommand (checkout_cmd (sha1 c))) s)))
    as (s' & Hloop).
  assert (Hnew : (configure_pom ;;;
                  test_loop w true (focal_methods_new c) (test_methods_new c) [] 0)
                   (log (EvCommand (checkout_cmd (sha1 c))) s)
                 = (Raise IndexError, s')).
  { by rewrite (bind_ok _ _ _ _ _ Hpom). }
  rewrite (bind_raise _ _ _ _ _ Hnew). by exists s'.
Qed.

End VerifierMore.

Lemma failed_checkout_leaves_no_record_witness :
  process_single_commit failing_world small_commit "proj" initial_state
  = (false, log (EvCommand (checkout_cmd "abc123")) initial_state).
Proof.
  apply (failed_checkout_leaves_no_record failing_world small_commit "proj"
           initial_state); reflexivity.
Defined.

Lemma success_means_both_gates_witness :
  exists before r,
    (process_single_commit covering_world paired_commit "proj" initial_state).2
    = (save_result covering_world r before).2
    /\ status r = "success"
    /\ 2 <= length (new_pairs r) /\ 2 <= length (old_pairs r).
Proof.
  destruct (success_means_both_gates covering_world paired_commit "proj" initial_state
              eq_refl)
    as [[Hskip _]|(before & r & Hrun & _ & _ & Hst & _ & _ & Hn & Hm & _)].
  - discriminate Hskip.
  - exists before, r. split; [exact Hrun|]. split; [exact Hst|].
    split; [exact Hn | exact Hm].
Defined.

Lemma no_report_no_success_witness :
  is_commit_processed (progress_store resumed_state) "proj" (sha1 small_commit) = true.
Proof.
  apply (no_report_no_success calm_world small_commit "proj" resumed_state).
  - intros tr root. discriminate.
  - reflexivity.
Defined.

Lemma bare_test_identifier_is_an_error_witness :
  exists before,
    process_single_commit calm_world bare_test_commit "proj" initial_state
    = (false, (save_result calm_world (error_result "abc123" IndexError) before).2).
Proof.
  apply (bare_test_identifier_is_an_error calm_world bare_test_commit "proj"
           initial_state).
  - reflexivity.
  - reflexivity.
  - intros tr cmd msg. discriminate.
  - reflexivity.
  - reflexivity.
Defined.

(** ** Batch driver, continued *)

Section DriverMore.
Variable w : World.

Lemma commit_loop_progress name todo : forall idx progress s,
  processed_commits (commit_loop w name idx todo progress s).1
  = processed_commits progress ++ (sha1 <$> todo)
  /\ successful_commits progress
     <= successful_commits (commit_loop w name idx todo progress s).1
     <= successful_commits progress + length todo
  /\ run_status (commit_loop w name idx todo progress s).1 = run_status progress.
Proof.
  induction todo as [|c rest IH]; intros idx progress s.
  - simpl. rewrite app_nil_r. split_and!; [done|lia..|done].
  - simpl.
    destruct (process_single_commit w c name _) as [success s2].
    destruct (IH (S idx) (record_outcome success (sha1 c) (set_index idx progress))
                (checkpoint w (record_outcome success (sha1 c) (set_index idx progress)) s2))
      as (Hp & Hs & Hst).
    rewrite Hp, Hst. simpl. rewrite <- app_assoc. split_and!; [done| | |done].
    + etrans; [|apply Hs]. simpl. destruct success; lia.
    + etrans; [apply Hs|]. simpl. destruct success; lia.
Qed.

(** A run whose [git status] does not raise ends with a checkpoint of status
    "completed" whose list of processed commits is the list it started from
    followed by the identifiers of the commits from the cursor on, in order,
    each exactly once: the list only grows, one entry per attempted commit,
    successful or not; and the success counter grows by at most that number. *)
Theorem run_project_extends_processed (name : string)
  (commits_data : list CommitInfo) (s : State) :
  (forall msg, command_outcome w (trace s) git_status_cmd <> CmdRaise msg) ->
  exists final,
    last (saved_records (trace (run_project w name commits_data s).2)) = Some final
    /\ run_status final = "completed"
    /\ processed_commits final
       = processed_commits
           (starting_progress (progress_store s) name (length commits_data))
         ++ (sha1 <$> drop (current_index
                              (starting_progress (progress_store s) name
                                 (length commits_data)))
                        commits_data)
    /\ successful_commits
         (starting_progress (progress_store s) name (length commits_data))
       <= successful_commits final
       <= successful_commits
            (starting_progress (progress_store s) name (length commits_data))
          + length commits_data.
Proof.
  intros Hno. unfold run_project.
  fold (starting_progress (progress_store s) name (length commits_data)).
  set (start := starting_progress (progress_store s) name (length commits_data)).
  unfold run_command.
  set (s1 := log (EvCommand git_status_cmd) s).
  assert (Hloop : exists final,
    last (saved_records (trace
      (let '(progress0, s0) :=
         commit_loop w name (current_index start)
           (drop (current_index start) commits_data) start s1 in
       (Ok (), checkpoint w (set_status "completed" progress0) s0)).2)) = Some final
    /\ run_status final = "completed"
    /\ processed_commits final
       = processed_commits start ++ (sha1 <$> drop (current_index start) commits_data)
    /\ successful_commits start <= successful_commits final
       <= successful_commits start + length commits_data).
  { destruct (commit_loop_progress name (drop (current_index start) commits_data)
                (current_index start) start s1) as (Hp & Hs & _).
    destruct (commit_loop _ _ _ _ _ _) as [progress' s']. simpl in *.
    exists (set_status "completed" progress').
    rewrite saved_records_app. simpl. rewrite last_snoc.
    split_and!; [done..| |]; [lia|].
    rewrite length_drop in Hs. lia. }
  destruct (command_outcome w (trace s) git_status_cmd) as [| |msg];
    [exact Hloop | exact Hloop | by destruct (Hno msg)].
Qed.

(** *** The results file over a whole run *)

Section ResultsInvariant.
Variable R : results_file -> results_file -> Prop.
Hypothesis R_refl : forall f, R f f.
Hypothesis R_trans : forall f g h, R f g -> R g h -> R f h.
Hypothesis R_append :
  forall tr f r, R f (append_result (can_create w tr) (can_write w tr) f r).2.

Lemma process_single_commit_results c name s :
  R (results s) (results (process_single_commit w c name s).2).
Proof.
  unfold process_single_commit.
  destruct (is_commit_processed _ _ _); [apply R_refl|].
  destruct (rejected c); [apply R_refl|].
  destruct (verify_cases w c s) as (evs & Q & [(_ & ->)|[(msg & ->)|(b & r & -> & _)]]);
    simpl; [apply R_refl | |]; rewrite save_result_results; apply R_append.
Qed.

Lemma commit_loop_results name todo : forall idx progress s,
  R (results s) (results (commit_loop w name idx todo progress s).2).
Proof.
  induction todo as [|c rest IH]; intros idx progress s; [apply R_refl|].
  simpl.
  pose proof (process_single_commit_results c name
                (log (EvProcessCommit idx (sha1 c))
                   (checkpoint w (set_index idx progress) s))) as Hstep.
  destruct (process_single_commit w c name _) as [success s2]. simpl in Hstep.
  eapply R_trans; [exact Hstep|]. apply (IH _ _ (checkpoint w _ s2)).
Qed.

Lemma run_project_results name commits_data s :
  R (results s) (results (run_project w name commits_data s).2).
Proof.
  unfold run_project, run_command.
  set (progress := if String.eqb _ _ then _ else _).
  assert (Hloop : R (results s)
    (results (let '(progress0, s0) :=
                commit_loop w name (current_index progress)
                  (drop (current_index progress) commits_data) progress
                  (log (EvCommand git_status_cmd) s) in
              (Ok (), checkpoint w (set_status "completed" progress0) s0)).2)).
  { pose proof (commit_loop_results name (drop (current_index progress) commits_data)
                  (current_index progress) progress
                  (log (EvCommand git_status_cmd) s)) as H.
    by destruct (commit_loop _ _ _ _ _ _). }
  destruct (command_outcome w (trace s) git_status_cmd); [done..|apply R_refl].
Qed.

End ResultsInvariant.

Lemma append_result_commits_prefix c wr f r :
  wr <> Truncated ->
  (commit <$> stored f) `prefix_of` (commit <$> stored (append_result c wr f r).2).
Proof.
  intros Hwr. unfold append_result.
  destruct f as [| |l]; simpl.
  - destruct c; simpl; [|done..]. destruct wr; simpl; [apply prefix_nil | done..].
  - destruct wr; simpl; [apply prefix_nil | done..].
  - destruct wr; simpl; [|done..]. rewrite upsert_commits. by eexists.
Qed.

(** Over a whole run of a project, whatever the commands and the reports do:
    when no write of the results file fails after the file was opened, the
    results file keeps the commit identifiers it had, in place and in order
    (new ones come after them); and, whatever the writes do, a file without
    two records of one commit stays so. *)
Theorem run_project_keeps_results_wellformed (name : string)
  (commits_data : list CommitInfo) (s : State) :
  ((forall tr, can_write w tr <> Truncated) ->
   (commit <$> stored (results s))
     `prefix_of` (commit <$> stored (results (run_project w name commits_data s).2)))
  /\ (NoDup (commit <$> stored (results s)) ->
      NoDup (commit <$> stored (results (run_project w name commits_data s).2))).
Proof.
  split.
  - intros Hwrite.
    apply (run_project_results
             (fun f g => (commit <$> stored f) `prefix_of` (commit <$> stored g))).
    + done.
    + intros f g h ? ?. by etrans.
    + intros tr f r. by apply append_result_commits_prefix.
  - apply (run_project_results
             (fun f g => NoDup (commit <$> stored f) -> NoDup (commit <$> stored g))).
    + done.
    + auto.
    + intros tr f r. apply append_result_NoDup.
Qed.

(** *** Commits that are already listed *)

Lemma checkpoint_keeps_listed (ids : list string) name p s :
  can_write w (trace s) <> Truncated ->
  Forall (fun id => id ∈ processed_commits p) ids ->
  Forall (fun id => id ∈ processed_commits (load_progress (progress_store s) name)) ids ->
  Forall (fun id => id ∈ processed_commits
                           (load_progress (progress_store (checkpoint w p s)) name)) ids.
Proof.
  intros Hwrite Hp Hs. unfold checkpoint, save_progress. simpl.
  by destruct (can_write w (trace s)).
Qed.

Lemma commit_loop_listed name todo : forall idx progress s,
  (forall tr, can_write w tr <> Truncated) ->
  Forall (fun c => sha1 c ∈ processed_commits progress) todo ->
  Forall (fun c => sha1 c ∈ processed_commits (load_progress (progress_store s) name))
    todo ->
  exists evs,
    trace (commit_loop w name idx todo progress s).2 = trace s ++ evs
    /\ Forall (fun ev => is_external ev = false) evs
    /\ appended evs = []
    /\ results (commit_loop w name idx todo progress s).2 = results s.
Proof.
  induction todo as [|c rest IH]; intros idx progress s Hwrite Hp Hs.
  - exists []. simpl. by rewrite app_nil_r.
  - simpl.
    set (p1 := set_index idx progress).
    set (s1 := log (EvProcessCommit idx (sha1 c)) (checkpoint w p1 s)).
    assert (Hs1 : Forall (fun c0 => sha1 c0 ∈ processed_commits
                            (load_progress (progress_store s1) name)) (c :: rest)).
    { apply Forall_fmap with (f := sha1)
                             (P := fun id => id ∈ processed_commits
                                     (load_progress (progress_store s1) name)).
      apply (checkpoint_keeps_listed (sha1 <$> c :: rest) name p1 s);
        [apply Hwrite | by apply Forall_fmap..]. }
    assert (Hskip : process_single_commit w c name s1 = (true, s1)).
    { unfold process_single_commit.
      assert (Hin : is_commit_processed (progress_store s1) name (sha1 c) = true).
      { apply is_commit_processed_spec. by inversion Hs1. }
      by rewrite Hin. }
    rewrite Hskip.
    set (p2 := record_outcome true (sha1 c) p1).
    destruct (IH (S idx) p2 (checkpoint w p2 s1)) as (evs & Htr & Hq & Ha & Hres).
    + exact Hwrite.
    + inversion Hp; subst. eapply Forall_impl; [eassumption|].
      intros c0 Hc0. simpl. apply elem_of_app. by left.
    + apply Forall_fmap with (f := sha1)
                             (P := fun id => id ∈ processed_commits
                                     (load_progress (progress_store (checkpoint w p2 s1))
                                        name)).
      apply (checkpoint_keeps_listed (sha1 <$> rest) name p2 s1).
      * apply Hwrite.
      * apply Forall_fmap. inversion Hp; subst. eapply Forall_impl; [eassumption|].
        intros c0 Hc0. simpl. apply elem_of_app. by left.
      * apply Forall_fmap. by inversion Hs1.
    + exists ([EvSaveProgress p1; EvProcessCommit idx (sha1 c); EvSaveProgress p2] ++ evs).
      split_and!.
      * rewrite Htr. simpl. by rewrite <- !app_assoc.
      * by repeat constructor.
      * done.
      * by rewrite Hres.
Qed.

Lemma run_project_listed name commits_data s :
  (forall tr, can_write w tr <> Truncated) ->
  run_status (load_progress (progress_store s) name) <> "not_started" ->
  Forall (fun c => sha1 c ∈ processed_commits (load_progress (progress_store s) name))
    (drop (current_index (load_progress (progress_store s) name)) commits_data) ->
  exists evs,
    trace (run_project w name commits_data s).2 = trace s ++ evs
    /\ Forall (fun ev => is_external ev = true -> ev = EvCommand git_status_cmd) evs
    /\ appended evs = []
    /\ results (run_project w name commits_data s).2 = results s.
Proof.
  intros Hwrite Hst Hlisted. unfold run_project.
  apply String.eqb_neq in Hst. rewrite Hst.
  set (progress := load_progress (progress_store s) name) in *.
  unfold run_command. set (s1 := log (EvCommand git_status_cmd) s).
  assert (Hloop : exists evs,
    trace (let '(progress0, s0) :=
             commit_loop w name (current_index progress)
               (drop (current_index progress) commits_data) progress s1 in
           (Ok (), checkpoint w (set_status "completed" progress0) s0)).2
    = trace s ++ evs
    /\ Forall (fun ev => is_external ev = true -> ev = EvCommand git_status_cmd) evs
    /\ appended evs = []
    /\ results (let '(progress0, s0) :=
                  commit_loop w name (current_index progress)
                    (drop (current_index progress) commits_data) progress s1 in
                (Ok (), checkpoint w (set_status "completed" progress0) s0)).2
       = results s).
  { destruct (commit_loop_listed name (drop (current_index progress) commits_data)
                (current_index progress) progress s1 Hwrite Hlisted Hlisted)
      as (evs & Htr & Hq & Ha & Hres).
    destruct (commit_loop _ _ _ _ _ _) as [progress' s']. simpl in *.
    exists ([EvCommand git_status_cmd] ++ evs
            ++ [EvSaveProgress (set_status "completed" progress')]).
    split_and!.
    - rewrite Htr. simpl. by rewrite <- !app_assoc.
    - apply Forall_app. split; [by repeat constructor|].
      apply Forall_app. split; [|by repeat constructor].
      eapply Forall_impl; [exact Hq|]. simpl. intros ev -> ?. discriminate.
    - rewrite !appended_app, Ha. done.
    - done. }
  destruct (command_outcome w (trace s) git_status_cmd) as [| |msg];
    [exact Hloop | exact Hloop |].
  exists [EvCommand git_status_cmd]. split_and!; [done| |done..].
  by repeat constructor.
Qed.

(** When every commit from the persisted cursor on is already listed in the
    persisted [processed_commits], and no write of the progress file fails
    after the file was opened, a run does no verification work: the only
    command it executes is [git status], it hands no record to the
    accumulator and leaves the results file as it is. *)
Theorem listed_commits_cost_nothing (name : string)
  (commits_data : list CommitInfo) (s : State) :
  (forall tr, can_write w tr <> Truncated) ->
  run_status (load_progress (progress_store s) name) <> "not_started" ->
  Forall (fun c => sha1 c ∈ processed_commits (load_progress (progress_store s) name))
    (drop (current_index (load_progress (progress_store s) name)) commits_data) ->
  exists evs,
    trace (run_project w name commits_data s).2 = trace s ++ evs
    /\ Forall (fun ev => is_external ev = true -> ev = EvCommand git_status_cmd) evs
    /\ appended evs = []
    /\ results (run_project w name commits_data s).2 = results s.
Proof. apply run_project_listed. Qed.

Lemma run_project_final_store name commits_data s :
  (forall tr, can_write w tr = Written) ->
  (forall msg, command_outcome w (trace s) git_status_cmd <> CmdRaise msg) ->
  exists final,
    progress_store (run_project w name commits_data s).2 = ProgressStored final
    /\ run_status final = "completed"
    /\ current_index
         (starting_progress (progress_store s) name (length commits_data))
       <= current_index final
    /\ processed_commits final
       = processed_commits
           (starting_progress (progress_store s) name (length commits_data))
         ++ (sha1 <$> drop (current_index
                              (starting_progress (progress_store s) name
                                 (length commits_data)))
                        commits_data).
Proof.
  intros Hw Hno. unfold run_project.
  fold (starting_progress (progress_store s) name (length commits_data)).
  set (start := starting_progress (progress_store s) name (length commits_data)).
  unfold run_command.
  set (s1 := log (EvCommand git_status_cmd) s).
  assert (Hloop : exists final,
    progress_store
      (let '(progress0, s0) :=
         commit_loop w name (current_index start)
           (drop (current_index start) commits_data) start s1 in
       (Ok (), checkpoint w (set_status "completed" progress0) s0)).2
    = ProgressStored final
    /\ run_status final = "completed"
    /\ current_index start <= current_index final
    /\ processed_commits final
       = processed_commits start ++ (sha1 <$> drop (current_index start) commits_data)).
  { destruct (commit_loop_progress name (drop (current_index start) commits_data)
                (current_index start) start s1) as (Hp & _ & _).
    destruct (commit_loop_view w name (drop (current_index start) commits_data)
                (current_index start) start s1) as (evs & _ & _ & Hc).
    destruct (commit_loop _ _ _ _ _ _) as [progress' s']. simpl in *.
    exists (set_status "completed" progress').
    unfold save_progress. rewrite Hw. simpl.
    split_and!; [done..| |done]. rewrite Hc.
    destruct (drop (current_index start) commits_data); simpl; lia. }
  destruct (command_outcome w (trace s) git_status_cmd) as [| |msg];
    [exact Hloop | exact Hloop | by destruct (Hno msg)].
Qed.

(** Running a project again after a run that completed (with writes that
    succeed) does no verification work: the second run executes no command
    but [git status], hands no record to the accumulator and leaves the
    results file as the first run left it. *)
Theorem completed_project_rerun_is_idle (name : string)
  (commits_data : list CommitInfo) (s : State) :
  (forall tr, can_write w tr = Written) ->
  (forall msg, command_outcome w (trace s) git_status_cmd <> CmdRaise msg) ->
  exists evs,
    trace (run_project w name commits_data (run_project w name commits_data s).2).2
    = trace (run_project w name commits_data s).2 ++ evs
    /\ Forall (fun ev => is_external ev = true -> ev = EvCommand git_status_cmd) evs
    /\ appended evs = []
    /\ results (run_project w name commits_data (run_project w name commits_data s).2).2
       = results (run_project w name commits_data s).2.
Proof.
  intros Hw Hno.
  destruct (run_project_final_store name commits_data s Hw Hno)
    as (final & Hstore & Hst & Hidx & Hproc).
  apply run_project_listed; [| rewrite Hstore; simpl ..].
  - intros tr. by rewrite Hw.
  - by rewrite Hst.
  - apply Forall_forall. intros c Hc. rewrite Hproc.
    apply elem_of_app. right. apply list_elem_of_fmap. exists c. split; [done|].
    set (k := current_index
                (starting_progress (progress_store s) name (length commits_data))) in *.
    replace (current_index final) with (k + (current_index final - k)) in Hc by lia.
    rewrite <- drop_drop in Hc.
    eapply elem_of_sublist; [exact Hc | apply sublist_drop].
Qed.

End DriverMore.

Lemma run_project_extends_processed_witness :
  exists final,
    last (saved_records (trace (run_project covering_world "proj"
                                  [small_commit; second_commit] midway_state).2))
    = Some final
    /\ processed_commits final = ["abc123"; "def456"].
Proof.
  destruct (run_project_extends_processed covering_world "proj"
              [small_commit; second_commit] midway_state)
    as (final & Hlast & _ & Hproc & _).
  - intros msg. discriminate.
  - exists final. split; [exact Hlast | exact Hproc].
Defined.

Lemma run_project_keeps_results_wellformed_witness :
  (commit <$> stored (results initial_state))
    `prefix_of` (commit <$> stored (results (run_project covering_world "proj"
                                               [small_commit; second_commit]
                                               initial_state).2))
  /\ NoDup (commit <$> stored (results (run_project covering_world "proj"
                                          [small_commit; second_commit]
                                          initial_state).2)).
Proof.
  destruct (run_project_keeps_results_wellformed covering_world "proj"
              [small_commit; second_commit] initial_state) as [Hprefix Hnodup].
  split.
  - apply Hprefix. intros tr. discriminate.
  - apply Hnodup. simpl. apply NoDup_nil_2.
Defined.

Lemma listed_commits_cost_nothing_witness :
  exists evs,
    trace (run_project covering_world "proj" [small_commit] resumed_state).2
    = trace resumed_state ++ evs
    /\ appended evs = [].
Proof.
  destruct (listed_commits_cost_nothing covering_world "proj" [small_commit]
              resumed_state) as (evs & Htr & _ & Ha & _).
  - intros tr. discriminate.
  - discriminate.
  - simpl. repeat constructor.
  - exists evs. split; [exact Htr | exact Ha].
Defined.

Lemma completed_project_rerun_is_idle_witness :
  exists evs,
    trace (run_project covering_world "proj" [paired_commit]
             (run_project covering_world "proj" [paired_commit] initial_state).2).2
    = trace (run_project covering_world "proj" [paired_commit] initial_state).2 ++ evs
    /\ appended evs = [].
Proof.
  destruct (completed_project_rerun_is_idle covering_world "proj" [paired_commit]
              initial_state) as (evs & Htr & _ & Ha & _).
  - intros tr. reflexivity.
  - intros msg. discriminate.
  - exists evs. split; [exact Htr | exact Ha].
Defined.

(** ** Reverting test changes *)

Lemma prefix_cons c a d s :
  String.prefix (String c a) (String d s)
  = if ascii_dec c d then String.prefix a s else false.
Proof. reflexivity. Qed.

Lemma prefix_app_l a b s : String.prefix (a +:+ b) s = true -> String.prefix a s = true.
Proof.
  revert s. induction a as [|c a IH]; intros s; [by destruct s|].
  rewrite append_cons. destruct s as [|d s]; [done|].
  rewrite !prefix_cons. destruct (ascii_dec c d); [apply IH | done].
Qed.

Lemma py_in_cons keyword d s :
  py_in keyword (String d s) = String.prefix keyword (String d s) || py_in keyword s.
Proof. reflexivity. Qed.

Lemma py_in_nil keyword : py_in keyword "" = String.prefix keyword "".
Proof. simpl. by rewrite orb_false_r. Qed.

Lemma py_in_app_l a b s : py_in (a +:+ b) s = true -> py_in a s = true.
Proof.
  induction s as [|d s IH].
  - rewrite !py_in_nil. apply prefix_app_l.
  - rewrite !py_in_cons. intros [H|H]%orb_true_iff; apply orb_true_iff.
    + left. by eapply prefix_app_l.
    + right. by apply IH.
Qed.

Lemma py_in_tail c b s : py_in (String c b) s = true -> py_in b s = true.
Proof.
  induction s as [|d s IH]; [by rewrite py_in_nil|].
  rewrite !py_in_cons. intros [H|H]%orb_true_iff; apply orb_true_iff; right.
  - rewrite prefix_cons in H. destruct (ascii_dec c d); [|done].
    destruct s; [rewrite py_in_nil | rewrite py_in_cons, H]; done.
  - by apply IH.
Qed.

(** Of the six built-in keywords only "test" and "spec" matter: a path is a
    test file exactly when its lower-case form contains "test" or "spec", or
    one of the keywords added on the command line. *)
Theorem is_test_file_two_keywords (extra : list string) (file_path : string) :
  is_test_file (default_test_keywords ++ extra) file_path
  = py_in "test" (lower file_path) || py_in "spec" (lower file_path)
    || existsb (fun keyword => py_in keyword (lower file_path)) extra.
Proof.
  unfold is_test_file. rewrite existsb_app. f_equal.
  unfold default_test_keywords. simpl. set (p := lower file_path).
  destruct (py_in "test" p) eqn:Ht; [done|].
  destruct (py_in "spec" p) eqn:Hs; [done|].
  assert (H1 : py_in "test_" p = false).
  { destruct (py_in "test_" p) eqn:H; [|done].
    apply (py_in_app_l "test" "_") in H. congruence. }
  assert (H2 : py_in "_test" p = false).
  { destruct (py_in "_test" p) eqn:H; [|done].
    apply py_in_tail in H. congruence. }
  assert (H3 : py_in ".test." p = false).
  { destruct (py_in ".test." p) eqn:H; [|done].
    apply py_in_tail, (py_in_app_l "test" ".") in H. congruence. }
  assert (H4 : py_in ".spec." p = false).
  { destruct (py_in ".spec." p) eqn:H; [|done].
    apply py_in_tail, (py_in_app_l "spec" ".") in H. congruence. }
  by rewrite H1, H2, H3, H4.
Qed.

Lemma split_parts_no_sep sep s :
  Forall (fun part => PyStr.contains sep part = false) (PyStr.split sep s).
Proof.
  induction s as [|c s IH]; simpl; [by repeat constructor|].
  destruct (Ascii.eqb c sep) eqn:Hc; [by constructor|].
  destruct (PyStr.split sep s) as [|h t].
  { constructor; [simpl; by rewrite Hc | done]. }
  inversion IH; subst. constructor; [|done]. simpl. by rewrite Hc.
Qed.

Lemma diff_lines_status_no_tab lines :
  Forall (fun entry => PyStr.contains tab entry.1 = false) (diff_lines lines).
Proof.
  induction lines as [|line rest IH]; simpl; [done|].
  destruct (PyStr.falsy _); [done|].
  pose proof (split_parts_no_sep tab line) as Hparts.
  destruct (PyStr.split tab line) as [|status [|filepath more]]; [done..|].
  constructor; [|done]. by inversion Hparts.
Qed.

Lemma get_diff_files_status_no_tab stdout :
  Forall (fun entry => PyStr.contains tab entry.1 = false) (get_diff_files stdout).
Proof.
  unfold get_diff_files. destruct (PyStr.falsy _); [done|].
  apply diff_lines_status_no_tab.
Qed.

Section RevertProperties.
Variable repo : Repo.

Lemma revert_entry_events status filepath done :
  PyStr.contains tab status = false ->
  exists evs,
    (revert_entry repo status filepath done).2 = done ++ evs
    /\ Forall (fun ev => (status = "A" /\ ev = RepoRemove filepath)
                         \/ ((status = "M" \/ status = "D")
                             /\ ev = RepoGit (restore_cmd filepath))) evs.
Proof.
  intros Htab. unfold revert_entry.
  destruct (String.eqb status "A") eqn:Ha.
  { apply String.eqb_eq in Ha. unfold remove_if_exists.
    destruct (path_exists repo done filepath).
    - exists [RepoRemove filepath]. split; [done|]. constructor; [by left|done].
    - exists []. by rewrite app_nil_r. }
  destruct (String.eqb status "M" || String.eqb status "D") eqn:Hmd.
  { exists [RepoGit (restore_cmd filepath)]. split; [done|].
    constructor; [|done]. right. split; [|done].
    apply orb_true_iff in Hmd as [H|H]; apply String.eqb_eq in H; auto. }
  exists []. rewrite app_nil_r. split; [|done].
  destruct (py_in "R" status); [|done].
  by rewrite (split_no_sep _ _ Htab).
Qed.

Lemma revert_loop_events test_files : forall done,
  Forall (fun entry => PyStr.contains tab entry.1 = false) test_files ->
  exists evs,
    (revert_loop repo test_files done).2 = done ++ evs
    /\ Forall (fun ev => exists status filepath,
                 (status, filepath) ∈ test_files
                 /\ ((status = "A" /\ ev = RepoRemove filepath)
                     \/ ((status = "M" \/ status = "D")
                         /\ ev = RepoGit (restore_cmd filepath)))) evs.
Proof.
  induction test_files as [|[status filepath] rest IH]; intros done Hall.
  - exists []. simpl. by rewrite app_nil_r.
  - inversion Hall as [|? ? Hst Hrest]; subst. simpl in Hst.
    destruct (revert_entry_events status filepath done Hst) as (e1 & H1 & Q1).
    assert (Q1' : Forall (fun ev => exists status0 filepath0,
                    (status0, filepath0) ∈ (status, filepath) :: rest
                    /\ ((status0 = "A" /\ ev = RepoRemove filepath0)
                        \/ ((status0 = "M" \/ status0 = "D")
                            /\ ev = RepoGit (restore_cmd filepath0)))) e1).
    { eapply Forall_impl; [exact Q1|]. intros ev H. exists status, filepath.
      split; [apply list_elem_of_here | done]. }
    simpl. destruct (revert_entry repo status filepath done) as [ok done1].
    simpl in H1. subst done1. destruct ok; [|by exists e1].
    destruct (IH (done ++ e1) Hrest) as (e2 & H2 & Q2).
    exists (e1 ++ e2). rewrite H2, app_assoc. split; [done|].
    apply Forall_app. split; [done|].
    eapply Forall_impl; [exact Q2|]. intros ev (st & fp & Hin & H).
    exists st, fp. split; [by apply list_elem_of_further | done].
Qed.

(** [revert_test_changes] only ever removes test files the diff lists as
    added and restores test files it lists as modified or deleted.  Entries
    of any other status, renames included, cause no git command and no
    removal: the status column taken from a diff line never holds a tab, so
    the branch written for renames finds nothing to do. *)
Theorem revert_touches_added_modified_deleted (test_keywords : list string)
  (stdout : string) (done : list repo_event) :
  exists evs,
    (revert_test_changes repo test_keywords stdout done).2 = done ++ evs
    /\ Forall (fun ev => exists status filepath,
                 (status, filepath) ∈ get_test_files_from_diff test_keywords stdout
                 /\ ((status = "A" /\ ev = RepoRemove filepath)
                     \/ ((status = "M" \/ status = "D")
                         /\ ev = RepoGit (restore_cmd filepath)))) evs.
Proof.
  unfold revert_test_changes. apply revert_loop_events.
  unfold get_test_files_from_diff.
  pose proof (get_diff_files_status_no_tab stdout) as H.
  induction H as [|e l He _ IH]; simpl; [done|].
  destruct (is_test_file test_keywords e.2); [by constructor | done].
Qed.

End RevertProperties.

(** *** Reading the diff *)

Lemma concat_cons2 sep x y l :
  String.concat sep (x :: y :: l) = x +:+ sep +:+ String.concat sep (y :: l).
Proof. reflexivity. Qed.

Lemma split_join sep lines :
  lines <> [] ->
  Forall (fun line => PyStr.contains sep line = false) lines ->
  PyStr.split sep (join_with (String sep "") lines) = lines.
Proof.
  unfold join_with. induction lines as [|x [|y l] IH]; intros Hne Hall; [done| |].
  - simpl. apply split_no_sep. by inversion Hall.
  - rewrite concat_cons2. inversion Hall; subst.
    change (String sep "" +:+ String.concat (String sep "") (y :: l))
      with (String sep (String.concat (String sep "") (y :: l))).
    rewrite split_app_sep by done. f_equal. by apply IH.
Qed.

Lemma all_chars_contains p ch s :
  all_chars p s = true -> p ch = false -> PyStr.contains ch s = false.
Proof.
  intros Hs Hch. induction s as [|c s IH]; simpl in *; [done|].
  apply andb_true_iff in Hs as [Hc Hs]. rewrite (IH Hs), orb_false_r.
  destruct (Ascii.eqb c ch) eqn:E; [|done].
  apply Ascii.eqb_eq in E. congruence.
Qed.

Lemma rstrip_by_app_fixed p a b :
  PyStr.rstrip_by p b = b -> b <> "" ->
  PyStr.rstrip_by p (a +:+ b) = a +:+ b /\ a +:+ b <> "".
Proof.
  intros Hb Hne. induction a as [|c a [IH1 IH2]]; [done|].
  rewrite append_cons. split; [|done]. simpl. rewrite IH1.
  by destruct (a +:+ b).
Qed.

Lemma lstrip_by_first p c s : p c = false -> PyStr.lstrip_by p (String c s) = String c s.
Proof. intros H. simpl. by rewrite H. Qed.

Section DiffRoundTrip.

Lemma plain_entry_spec entry :
  plain_entry entry = true ->
  fixed_start entry.1
  /\ PyStr.contains tab entry.1 = false
  /\ PyStr.contains newline entry.1 = false
  /\ fixed_end entry.2
  /\ PyStr.contains tab entry.2 = false
  /\ PyStr.contains newline entry.2 = false.
Proof.
  unfold plain_entry.
  intros [[[[[H1 H2]%andb_true_iff H3]%andb_true_iff H4]%andb_true_iff
            H5]%andb_true_iff H6]%andb_true_iff.
  apply negb_true_iff in H1, H3, H4, H5. apply String.eqb_eq in H6.
  split_and!; try done.
  - destruct entry.1 as [|c r]; [done|]. exists c, r. split; [done|].
    simpl in H2. apply andb_true_iff in H2 as [Hc _]. by apply negb_true_iff.
  - by apply (all_chars_contains _ _ _ H2).
  - by apply (all_chars_contains _ _ _ H2).
  - by destruct entry.2.
Qed.

Lemma diff_line_shape entry :
  plain_entry entry = true ->
  fixed_start (diff_line entry) /\ fixed_end (diff_line entry)
  /\ PyStr.contains newline (diff_line entry) = false
  /\ PyStr.split tab (diff_line entry) = [entry.1; entry.2].
Proof.
  intros (Hs & Ht1 & Hn1 & (He & Hne) & Ht2 & Hn2)%plain_entry_spec.
  unfold diff_line. split_and!.
  - destruct Hs as (c & r & -> & Hc). rewrite append_cons. by eexists _, _.
  - apply rstrip_by_app_fixed; [|done]. simpl. rewrite He. by destruct entry.2.
  - rewrite contains_app, Hn1. simpl. by rewrite Hn2.
  - rewrite (split_app_sep _ _ _ Ht1). f_equal. by apply split_no_sep.
Qed.

Lemma strip_fixed s : fixed_start s -> fixed_end s -> PyStr.strip s = s.
Proof.
  intros (c & r & -> & Hc) [He _]. unfold PyStr.strip.
  by rewrite lstrip_by_first.
Qed.

Lemma diff_lines_roundtrip entries :
  forallb plain_entry entries = true ->
  diff_lines (map diff_line entries) = entries.
Proof.
  induction entries as [|e es IH]; simpl; [done|].
  intros [He Hes]%andb_true_iff.
  destruct (diff_line_shape e He) as (Hs & Hf & _ & Hsplit).
  rewrite (strip_fixed _ Hs Hf), Hsplit.
  destruct Hs as (c & r & -> & _). simpl. rewrite (IH Hes). by destruct e.
Qed.

Lemma diff_text_shape e es :
  forallb plain_entry (e :: es) = true ->
  fixed_start (diff_text (e :: es)) /\ fixed_end (diff_text (e :: es)).
Proof.
  unfold diff_text, join_with. revert e.
  induction es as [|e' es IH]; intros e [He Hes]%andb_true_iff.
  - simpl. by destruct (diff_line_shape e He) as (? & ? & _).
  - simpl map. rewrite concat_cons2.
    destruct (diff_line_shape e He) as ((c & r & -> & Hc) & _).
    destruct (IH e' Hes) as (_ & Hf1 & Hf2). split.
    + rewrite append_cons. by eexists _, _.
    + destruct (rstrip_by_app_fixed PyStr.is_space (String newline "") _ Hf1 Hf2)
        as [G1 G2].
      exact (rstrip_by_app_fixed _ _ _ G1 G2).
Qed.

(** Reading back what git writes: for entries whose status has no white
    space and whose path has no tab, no line feed and no white space at its
    end, [get_diff_files] returns exactly the entries of the
    [--name-status] output, in order. *)
Theorem get_diff_files_roundtrip (entries : list (string * string)) :
  forallb plain_entry entries = true ->
  get_diff_files (diff_text entries) = entries.
Proof.
  intros Hall. destruct entries as [|e es]; [done|].
  destruct (diff_text_shape e es Hall) as (Hs & Hf).
  unfold get_diff_files, git_output. rewrite (strip_fixed _ Hs Hf).
  destruct Hs as (c & r & Heq & _). rewrite Heq. simpl PyStr.falsy. cbv iota.
  rewrite <- Heq. unfold diff_text.
  rewrite split_join.
  - by apply diff_lines_roundtrip.
  - done.
  - apply Forall_fmap, Forall_forall. intros x Hx. simpl.
    apply (diff_line_shape x).
    apply forallb_forall with (x := x) in Hall; [done|]. by apply list_elem_of_In.
Qed.

End DiffRoundTrip.

Lemma get_diff_files_roundtrip_witness :
  get_diff_files (diff_text [("M", "src/test/FooTest.java"); ("A", "src/main/Foo.java")])
  = [("M", "src/test/FooTest.java"); ("A", "src/main/Foo.java")].
Proof.
  apply (get_diff_files_roundtrip
           [("M", "src/test/FooTest.java"); ("A", "src/main/Foo.java")]).
  reflexivity.
Defined.

(** ** Selecting the commits to verify *)

Lemma set_add_NoDup x s : NoDup s -> NoDup (set_add x s).
Proof.
  intros H. unfold set_add. case_bool_decide; [done|].
  apply NoDup_app. split_and!; [done| |apply NoDup_singleton].
  intros y Hy ->%list_elem_of_singleton. done.
Qed.

Lemma set_add_Forall (P : string -> Prop) x s :
  P x -> Forall P s -> Forall P (set_add x s).
Proof.
  intros Hx Hs. unfold set_add. case_bool_decide; [done|].
  apply Forall_app. split; [done | by constructor].
Qed.

Lemma add_element_tidy file_path el sets :
  tidy_sets sets -> tidy_sets (add_element file_path el sets).
Proof.
  intros (H1 & H2 & H3 & H4 & H5 & H6). unfold add_element, looks_like_test.
  destruct (py_in "test" (lower file_path)); simpl.
  { destruct (String.eqb (version el) "NEW"); unfold tidy_sets; simpl;
      split_and!; auto using set_add_NoDup. }
  destruct (py_in "test" (lower (element_name el))) eqn:Hn;
    destruct (String.eqb (version el) "NEW"); unfold tidy_sets; simpl;
    split_and!; auto using set_add_NoDup, set_add_Forall.
Qed.

Lemma add_changes_tidy accepts changes sets :
  tidy_sets sets -> tidy_sets (add_changes accepts changes sets).
Proof.
  unfold add_changes. revert sets.
  induction changes as [|[file_path els] rest IH]; intros sets H; [done|].
  simpl. apply IH. clear IH. revert sets H.
  induction els as [|el els IHel]; intros sets H; [done|].
  simpl. apply IHel. destruct (accepts (element_type el)); [|done].
  by apply add_element_tidy.
Qed.

Lemma collect_sets_tidy commit_data : tidy_sets (collect_sets commit_data).
Proof.
  unfold collect_sets.
  assert (H0 : tidy_sets empty_sets).
  { unfold tidy_sets, empty_sets. simpl. split_and!; by constructor. }
  destruct (changed_methods commit_data) as [m|];
    destruct (changed_constructors commit_data) as [k|];
    auto using add_changes_tidy.
Qed.

(** Every commit [filter_commits] writes comes from a commit it read and
    carries that commit's identifier; none of its four method lists repeats a
    name; no focal method has "test" in its name, in any case; and it has at
    least one focal and one test method over both revisions, and at least two
    of one kind. *)
Theorem filter_commits_sound (commits : list CommitData) (c : CommitInfo) :
  c ∈ filter_commits commits ->
  (exists commit_data, commit_data ∈ commits /\ sha1 c = commit_id commit_data)
  /\ NoDup (focal_methods_new c) /\ NoDup (focal_methods_old c)
  /\ NoDup (test_methods_new c) /\ NoDup (test_methods_old c)
  /\ Forall (fun name => py_in "test" (lower name) = false)
       (focal_methods_new c ++ focal_methods_old c)
  /\ 0 < length (focal_methods_new c) + length (focal_methods_old c)
  /\ 0 < length (test_methods_new c) + length (test_methods_old c)
  /\ (2 <= length (focal_methods_new c) + length (focal_methods_old c)
      \/ 2 <= length (test_methods_new c) + length (test_methods_old c)).
Proof.
  induction commits as [|d rest IH]; simpl; [by intros ?%elem_of_nil|].
  destruct (is_valid (collect_sets d)) eqn:Hv.
  - intros [->|Hin]%elem_of_cons.
    + destruct (collect_sets_tidy d) as (H1 & H2 & H3 & H4 & H5 & H6).
      unfold is_valid, total_focal_count, total_test_count in Hv.
      apply andb_true_iff in Hv as [[Hf Ht]%andb_true_iff Htwo].
      apply Nat.ltb_lt in Hf, Ht.
      apply orb_true_iff in Htwo. rewrite !Nat.leb_le in Htwo.
      simpl. split_and!; try done.
      * exists d. split; [apply list_elem_of_here | done].
      * by apply Forall_app.
    + destruct (IH Hin) as ((d' & Hd' & Hsha) & Hrest).
      split; [|done]. exists d'. split; [by apply list_elem_of_further | done].
  - intros Hin. destruct (IH Hin) as ((d' & Hd' & Hsha) & Hrest).
    split; [|done]. exists d'. split; [by apply list_elem_of_further | done].
Qed.

(** [filter_commits] keeps the order of the commits: the identifiers it
    writes are a sublist of the identifiers it read. *)
Theorem filter_commits_keeps_order (commits : list CommitData) :
  (sha1 <$> filter_commits commits) `sublist_of` (commit_id <$> commits).
Proof.
  induction commits as [|d rest IH]; simpl; [done|].
  destruct (is_valid (collect_sets d)); simpl; by constructor.
Qed.

Lemma filter_commits_sound_witness :
  NoDup (focal_methods_new (commit_obj sample_commit_data
                              (collect_sets sample_commit_data)))
  /\ 0 < length (test_methods_new (commit_obj sample_commit_data
                                     (collect_sets sample_commit_data)))
         + length (test_methods_old (commit_obj sample_commit_data
                                       (collect_sets sample_commit_data))).
Proof.
  destruct (filter_commits_sound [sample_commit_data]
              (commit_obj sample_commit_data (collect_sets sample_commit_data)))
    as (_ & Hnd & _ & _ & _ & _ & _ & Htest & _).
  - apply list_elem_of_here.
  - split; [exact Hnd | exact Htest].
Defined.

Lemma append_result_keeps_other_commits_witness :
  filter (fun e => commit e = "def456")
    (stored (append_result Written Written
               (ResultsStored [failed_result "abc123" "old_coverage_less_than_2";
                               success_result "def456" [] []])
               (success_result "abc123" [] [])).2)
  = filter (fun e => commit e = "def456")
      (stored (ResultsStored [failed_result "abc123" "old_coverage_less_than_2";
                              success_result "def456" [] []])).
Proof.
  apply (append_result_keeps_other_commits Written Written
           (ResultsStored [failed_result "abc123" "old_coverage_less_than_2";
                           success_result "def456" [] []])
           (success_result "abc123" [] [])).
  - discriminate.
  - discriminate.
Defined.
